(** * Juice & Smoothie sales dashboard: column detection and the three views

    A shallow embedding of [ChukwuebukaOkonkwo_PythonAss5.py].  The script
    reads a table, finds four columns by name ([detect_column]) and shows
    three tabs: sales per category, sales per day and the distribution of
    the satisfaction ratings.  The pandas operations the script calls are
    written out as list functions; what each one stands for is said at its
    definition. *)

From Stdlib Require Import ZArith QArith List Ascii String Bool Lia.
From stdpp Require Import base option list sorting strings gmap.

Open Scope string_scope.
Open Scope list_scope.

(** ** Python strings *)

(** [str.lower()] on the ASCII letters: "A".."Z" are moved to "a".."z",
    every other byte is kept. *)
Definition lower_ascii (c : ascii) : ascii :=
  let n := nat_of_ascii c in
  if (65 <=? n)%nat && (n <=? 90)%nat then ascii_of_nat (n + 32) else c.

Fixpoint lower (s : string) : string :=
  match s with
  | EmptyString => EmptyString
  | String c r => String (lower_ascii c) (lower r)
  end.

(** ** Column detection (lines 23-32) *)

Module Resolver.

(** [{c.lower(): c for c in df.columns}]: the comprehension inserts the
    columns from left to right, a later column with the same lowered name
    overwrites an earlier one. *)
Definition cols_lower (cols : list string) : gmap string string :=
  foldl (fun m c => <[lower c := c]> m) ∅ cols.

(** The [for cand in candidates] loop over the dict [m]. *)
Fixpoint first_match (m : gmap string string) (candidates : list string)
  : option string :=
  match candidates with
  | [] => None
  | cand :: rest =>
      match m !! lower cand with
      | Some c => Some c
      | None => first_match m rest
      end
  end.

Definition detect_column (cols : list string) (candidates : list string)
  : option string :=
  first_match (cols_lower cols) candidates.

(** The candidate lists of lines 51-54. *)
Definition category_candidates : list string :=
  ["Category"; "Product Category"].
Definition sales_candidates : list string :=
  ["$ Sales"; "Sales ($)"; "Sales"; "Total Sales"].
Definition date_candidates : list string :=
  ["Date Ordered"; "Order Date"].
Definition satisfaction_candidates : list string :=
  ["Service Satisfaction Rating"; "Satisfaction Rating"].

(** An alias matches a table when some column has the same lowered name. *)
Definition matches (cols : list string) (alias : string) : Prop :=
  ∃ c, c ∈ cols ∧ lower c = lower alias.

End Resolver.

(** ** Values, exceptions and tables *)

(** A cell of the uploaded table: a number, a text, or a missing value
    (pandas' NaN / None / NaT).  Numbers are rationals: the script's
    floating-point rounding is not modelled.  Cells are looked at one by
    one; a column has no dtype of its own. *)
Inductive cell : Type :=
  | Num (q : Q)
  | Str (s : string)
  | NaN.

Definition notna (c : cell) : bool :=
  match c with NaN => false | _ => true end.

(** Python exceptions the script can run into. *)
Inductive exn : Type :=
  KeyError | TypeError | ValueError | ZeroDivisionError.

Inductive result (A : Type) : Type :=
  | Ok (a : A)
  | Raise (e : exn).
Arguments Ok {A} a.
Arguments Raise {A} e.

#[global] Instance result_ret : MRet result := fun A a => Ok a.
#[global] Instance result_bind : MBind result := fun A B k r =>
  match r with
  | Ok a => k a
  | Raise e => Raise e
  end.

Fixpoint mapM_result {A B} (f : A -> result B) (l : list A)
  : result (list B) :=
  match l with
  | [] => Ok []
  | a :: r => b ← f a; bs ← mapM_result f r; Ok (b :: bs)
  end.

(** A DataFrame: the column labels and the rows, each row holding one cell
    per column (a cell that a short row lacks reads as missing). *)
Record DataFrame : Type := mkDataFrame {
  columns : list string;
  rows : list (list cell)
}.

Fixpoint index_of (name : string) (cols : list string) : option nat :=
  match cols with
  | [] => None
  | c :: r => if String.eqb c name then Some O
              else option_map S (index_of name r)
  end.

(** [df[name]]: the cells of a column, [KeyError] for an unknown label. *)
Definition column (df : DataFrame) (name : string) : result (list cell) :=
  match index_of name (columns df) with
  | Some i => Ok (map (fun r => nth i r NaN) (rows df))
  | None => Raise KeyError
  end.

(** ** Ordering of labels *)

(** Labels of one kind are ordered by value (numbers numerically, texts
    lexicographically by character code).  [groupby] also orders labels
    of different kinds: numbers come before texts. *)
Definition cell_compare (a b : cell) : comparison :=
  match a, b with
  | Num p, Num q => (p ?= q)%Q
  | Num _, _ => Lt
  | Str _, Num _ => Gt
  | Str s, Str t => String.compare s t
  | Str _, NaN => Lt
  | NaN, NaN => Eq
  | NaN, _ => Gt
  end.

(** Two labels can be compared by Python's [<] when they are of one kind. *)
Definition same_kind (a b : cell) : bool :=
  match a, b with
  | Num _, Num _ | Str _, Str _ | NaN, NaN => true
  | _, _ => false
  end.

Section Ordered.
Context {K : Type} (cmp : K -> K -> comparison).

Definition keq (a b : K) : bool :=
    match cmp a b with Eq => true | _ => false end.
Definition kle (a b : K) : Prop :=
    Is_true (match cmp a b with Gt => false | _ => true end).
Definition klt (a b : K) : Prop := cmp a b = Lt.

  (** Orders on (label, value) pairs: by label, ascending. *)
Definition by_label {V} : relation (K * V) := fun x y => kle x.1 y.1.
Definition label_lt {V} : relation (K * V) := fun x y => klt x.1 y.1.

  (** ** Grouping rows by label *)

  (** Put a row into the group of its label; a new label opens a new
      group after the existing ones. *)
Fixpoint add_row {A} (k : K) (a : A) (gs : list (K * list A))
    : list (K * list A) :=
    match gs with
    | [] => [(k, [a])]
    | (k', l) :: r =>
        if keq k' k then (k', l ++ [a]) :: r else (k', l) :: add_row k a r
    end.

Definition group_rows {A} (l : list (K * A)) : list (K * list A) :=
    foldl (fun gs r => add_row r.1 r.2 gs) [] l.

  (** [sort_index()], and the label order [groupby] leaves its groups in. *)
Definition sort_labels {V} (l : list (K * V)) : list (K * V) :=
    merge_sort by_label l.
End Ordered.

(** Orders on (label, value) pairs by value, descending: what
    [sort_values(ascending=False)] sorts by. *)
Definition by_total_desc {K} : relation (K * Q) :=
  fun x y => (y.2 <= x.2)%Q.
Definition by_count_desc {K} : relation (K * nat) :=
  fun x y => (y.2 <= x.2)%nat.

#[global] Instance by_total_desc_dec {K} (x y : K * Q)
  : Decision (by_total_desc x y).
Proof.
  unfold by_total_desc. destruct (Qlt_le_dec x.2 y.2) as [Hlt | Hle].
  - right. intro Hle. exact (Qlt_not_le _ _ Hlt Hle).
  - left. exact Hle.
Defined.

#[global] Instance by_count_desc_dec {K} (x y : K * nat)
  : Decision (by_count_desc x y).
Proof. unfold by_count_desc. apply _. Defined.

Definition sort_values_desc {K} (l : list (K * Q)) : list (K * Q) :=
  merge_sort by_total_desc l.

(** ** Sums *)

(** Python's [+] on two present values. *)
Definition py_add (a b : cell) : result cell :=
  match a, b with
  | Num p, Num q => Ok (Num (p + q))
  | Str s, Str t => Ok (Str (s ++ t))
  | _, _ => Raise TypeError
  end.

(** The [sum()] of one group: missing cells are skipped, the first present
    cell is taken as it is and every later one is added with [+]; a group
    without a present cell sums to 0.  Nothing here turns a text into a
    number or leaves a text out. *)
Fixpoint sum_from (acc : cell) (l : list cell) : result cell :=
  match l with
  | [] => Ok acc
  | NaN :: r => sum_from acc r
  | c :: r => acc' ← py_add acc c; sum_from acc' r
  end.

Fixpoint group_sum (l : list cell) : result cell :=
  match l with
  | [] => Ok (Num 0)
  | NaN :: r => group_sum r
  | c :: r => sum_from c r
  end.

(** [groupby(key)[col].sum()] on the rows whose key is present: one entry
    per distinct label, in ascending label order. *)
Definition groupby_sum {K} (cmp : K -> K -> comparison)
  (l : list (K * cell)) : result (list (K * cell)) :=
  mapM_result (fun g => t ← group_sum g.2; Ok (g.1, t))
              (sort_labels cmp (group_rows cmp l)).

(** A total that is a text does not pass the steps after the sum: the
    chart, the comparison [total_sales > 0] of line 98 or the format
    [:,.2f] of line 159 raise on it.  [category_view] and [time_view] raise
    [TypeError] for it, whichever of these steps it is. *)
Definition as_number (c : cell) : result Q :=
  match c with
  | Num q => Ok q
  | _ => Raise TypeError
  end.

Definition numeric_totals {K} (l : list (K * cell)) : result (list (K * Q)) :=
  mapM_result (fun g => q ← as_number g.2; Ok (g.1, q)) l.

(** ** idxmax / max *)

Definition Qltb (p q : Q) : bool := negb (Qle_bool q p).

(** The scan behind [idxmax()] and [max()]: the entry kept is replaced
    only by a strictly larger one, so the first maximal entry wins. *)
Fixpoint argmax_from {K V} (ltb : V -> V -> bool) (best : K * V)
  (l : list (K * V)) : K * V :=
  match l with
  | [] => best
  | x :: r => argmax_from ltb (if ltb best.2 x.2 then x else best) r
  end.

(** [Series.sum()] of numeric totals. *)
Definition series_sum {K} (l : list (K * Q)) : Q :=
  foldr Qplus 0%Q (map snd l).

(** ** The outcome of a tab *)

Inductive view (A : Type) : Type :=
  | Shown (a : A)              (* chart and interpretation *)
  | NoData                     (* [st.info]: nothing to show *)
  | InsufficientColumns.       (* [st.error]: a column was not found *)
Arguments Shown {A} a.
Arguments NoData {A}.
Arguments InsufficientColumns {A}.

(** ** Tab 1: sales by category (lines 76-119) *)

Record category_summary : Type := mkCategorySummary {
  category_sales : list (cell * Q);
  top_category : cell;
  top_value : Q;
  total_sales : Q;
  top_pct : Q
}.

(** Python's [/]: a zero divisor raises. *)
Definition py_div (a b : Q) : result Q :=
  if Qeq_bool b 0 then Raise ZeroDivisionError else Ok (a / b)%Q.

(** Lines 98-101. *)
Definition share_pct (top_value total_sales : Q) : result Q :=
  if Qltb 0 total_sales
  then share ← py_div top_value total_sales; Ok (share * 100)%Q
  else Ok 0%Q.

(** [groupby] leaves out the rows whose key is missing. *)
Definition keyed_rows (keys vals : list cell) : list (cell * cell) :=
  filter (fun r => Is_true (notna r.1)) (zip keys vals).

(** The aggregation and the interpretation of tab 1.  The chart call of
    lines 84-91, which lies between the two, is not part of
    [category_view]; [category_tab] below has it. *)
Definition category_view (df : DataFrame)
  (category_col sales_col : option string)
  : result (view category_summary) :=
  match category_col, sales_col with
  | Some cc, Some sc =>
      cats ← column df cc;
      sales ← column df sc;
      sums ← groupby_sum cell_compare (keyed_rows cats sales);
      totals ← numeric_totals sums;
      match sort_values_desc totals with
      | [] => Ok NoData
      | first :: rest =>
          let top := argmax_from Qltb first rest in
          let total := series_sum (first :: rest) in
          pct ← share_pct top.2 total;
          Ok (Shown {| category_sales := first :: rest;
                       top_category := top.1;
                       top_value := top.2;
                       total_sales := total;
                       top_pct := pct |})
      end
  | _, _ => Ok InsufficientColumns
  end.

(** ** Tab 2: sales per day (lines 125-171) *)

Record time_summary : Type := mkTimeSummary {
  daily_sales : list (Z * Q);
  max_date : Z;
  max_value : Q
}.

(** [dropna(subset=[date_col])] on the coerced dates: a row stays when its
    date is a timestamp, and is dropped when it is NaT. *)
Definition dated_rows (dates : list (option Z)) (vals : list cell)
  : list (Z * cell) :=
  omap (fun r => d ← r.1; Some (d, r.2)) (zip dates vals).

Section TimeSeries.
  (** [pd.to_datetime(column, errors="coerce")]: the date parser is pandas'
      own; it yields, cell by cell, a timestamp (an integer count of time
      units) or NaT. *)
Variable to_datetime : list cell -> list (option Z).

(** The aggregation and the interpretation of tab 2, without the chart
    call of lines 142-150 ([time_tab] below has it).  The rows are grouped
    by the timestamp [to_datetime] gives them. *)
Definition time_view (df : DataFrame) (date_col sales_col : option string)
    : result (view time_summary) :=
    match date_col, sales_col with
    | Some dc, Some sc =>
        dates ← column df dc;
        sales ← column df sc;
        sums ← groupby_sum Z.compare (dated_rows (to_datetime dates) sales);
        totals ← numeric_totals (sort_labels Z.compare sums);
        match totals with
        | [] => Ok NoData
        | first :: rest =>
            let peak := argmax_from Qltb first rest in
            Ok (Shown {| daily_sales := first :: rest;
                         max_date := peak.1;
                         max_value := peak.2 |})
        end
    | _, _ => Ok InsufficientColumns
    end.
End TimeSeries.

(** ** Tab 3: satisfaction ratings (lines 177-209) *)

Record ratings_summary : Type := mkRatingsSummary {
  rating_counts : list (cell * nat);
  most_common_rating : cell
}.

(** [value_counts()]: one entry per distinct value with the number of its
    occurrences, most frequent first. *)
Definition value_counts (l : list cell) : list (cell * nat) :=
  merge_sort by_count_desc
    (map (fun g => (g.1, length g.2))
         (group_rows cell_compare (map (fun c => (c, tt)) l))).

(** [sort_index()] on the counted values: Python's [<] between a number
    and a text raises [TypeError]. *)
Definition sort_index (l : list (cell * nat)) : result (list (cell * nat)) :=
  match l with
  | [] => Ok []
  | x :: r =>
      if forallb (fun y => same_kind x.1 y.1) r
      then Ok (sort_labels cell_compare l)
      else Raise TypeError
  end.

Definition ratings_view (df : DataFrame) (satisfaction_col : option string)
  : result (view ratings_summary) :=
  match satisfaction_col with
  | Some sc =>
      col ← column df sc;
      match filter (fun c => Is_true (notna c)) col with
      | [] => Ok NoData
      | ratings =>
          counts ← sort_index (value_counts ratings);
          match counts with
          | [] => Raise ValueError     (* [idxmax()] of an empty Series *)
          | first :: rest =>
              Ok (Shown {| rating_counts := first :: rest;
                           most_common_rating :=
                             (argmax_from Nat.ltb first rest).1 |})
          end
      end
  | None => Ok InsufficientColumns
  end.

(** ** The whole page *)

Record dashboard : Type := mkDashboard {
  tab1 : view category_summary;
  tab2 : view time_summary;
  tab3 : view ratings_summary
}.

Section Page.
Variable to_datetime : list cell -> list (option Z).

  (** Lines 51-54 and the three tabs, run from top to bottom: an exception
      that no tab catches ends the run. *)
Definition run (df : DataFrame) : result dashboard :=
    let category_col := Resolver.detect_column (columns df) Resolver.category_candidates in
    let sales_col := Resolver.detect_column (columns df) Resolver.sales_candidates in
    let date_col := Resolver.detect_column (columns df) Resolver.date_candidates in
    let satisfaction_col :=
      Resolver.detect_column (columns df) Resolver.satisfaction_candidates in
    t1 ← category_view df category_col sales_col;
    t2 ← time_view to_datetime df date_col sales_col;
    t3 ← ratings_view df satisfaction_col;
    Ok {| tab1 := t1; tab2 := t2; tab3 := t3 |}.
End Page.

(** ** A date parser to run examples with *)

(** The part of [pd.to_datetime] the examples need: a text of the form
    "YYYY-MM-DD" with a month in 1..12 and a day in 1..31 is a date, here
    the number yyyymmdd (which orders dates as the calendar does); every
    other cell is NaT. *)
Definition digit (c : ascii) : option Z :=
  let n := nat_of_ascii c in
  if (48 <=? n)%nat && (n <=? 57)%nat then Some (Z.of_nat (n - 48)) else None.

Fixpoint digits (acc : Z) (l : list ascii) : option Z :=
  match l with
  | [] => Some acc
  | c :: r => d ← digit c; digits (10 * acc + d)%Z r
  end.

Definition parse_iso (c : cell) : option Z :=
  match c with
  | Str s =>
      match list_ascii_of_string s with
      | [y1; y2; y3; y4; "-"%char; m1; m2; "-"%char; d1; d2] =>
          y ← digits 0 [y1; y2; y3; y4];
          m ← digits 0 [m1; m2];
          d ← digits 0 [d1; d2];
          if ((1 <=? m) && (m <=? 12) && (1 <=? d) && (d <=? 31))%Z
          then Some (y * 10000 + m * 100 + d)%Z
          else None
      | _ => None
      end
  | _ => None
  end.

Definition to_datetime_iso (l : list cell) : list (option Z) :=
  map parse_iso l.


(** ** What the aggregations are compared with *)

Section Reference.
Context {K : Type} (cmp : K -> K -> comparison).

(** The values of the rows that carry the label [k], in row order. *)
Definition group_of {A} (k : K) (l : list (K * A)) : list A :=
  map snd (filter (fun r => Is_true (keq cmp k r.1)) l).

(** No two labels of the list are the same or compare equal. *)
Definition distinct_labels (ks : list K) : Prop :=
  NoDup ks ∧ ∀ a b, a ∈ ks -> b ∈ ks -> Is_true (keq cmp a b) -> a = b.

(** What [add_row] does to a group: the row joins the group of its label. *)
Definition extend {A} (k : K) (a : A) (g : K * list A) : K * list A :=
  if keq cmp g.1 k then (g.1, g.2 ++ [a]) else g.
End Reference.




(** The share of a total in the sum of all totals, in percent. *)
Definition share_of (top_value total_sales : Q) : Q :=
  if Qltb 0 total_sales then (top_value / total_sales * 100)%Q else 0%Q.




Definition sum_Q (l : list Q) : Q := foldr Qplus 0%Q l.


(** How often the value [k] occurs in [l]. *)
Definition count_of (k : cell) (l : list cell) : nat :=
  length (filter (fun c => Is_true (keq cell_compare k c)) l).

(** [counts] are the frequencies of the values of [l]: one entry per
    distinct value, holding the number of its occurrences. *)
Definition counts_of_values (l : list cell) (counts : list (cell * nat))
  : Prop :=
  distinct_labels cell_compare (map fst counts)
  ∧ (∀ x, x ∈ counts -> x.1 ∈ l ∧ x.2 = count_of x.1 l)
  ∧ (∀ c, c ∈ l -> ∃ x, x ∈ counts ∧ Is_true (keq cell_compare x.1 c)).

(** Ratings of one kind: all numbers or all texts. *)
Definition one_kind (l : list cell) : Prop :=
  ∀ a b, a ∈ l -> b ∈ l -> Is_true (same_kind a b).

(** A table whose only row has no category, no readable date and no
    rating. *)
Definition blank_table : DataFrame :=
  mkDataFrame ["Category"; "Sales"; "Order Date"; "Satisfaction Rating"]
    [[NaN; Num 5; Str "soon"; NaN]].

(** Ratings with a tie between 2 and 4. *)
Definition tied_table : DataFrame :=
  mkDataFrame ["Satisfaction Rating"]
    [[Num 4]; [Num 2]; [NaN]; [Num 4]; [Num 2]; [Num 3]].

(** ** Example tables *)

Definition juice_table : DataFrame :=
  mkDataFrame ["Category"; "Sales"]
    [[Str "Juice"; Num 100]; [Str "Smoothie"; Num 300]].


Definition rated_table : DataFrame :=
  mkDataFrame ["Service Satisfaction Rating"]
    [[Num 5]; [Num 5]; [Num 3]; [Num 4]; [Num 5]].


(** ** The warnings (lines 56-67) *)

Inductive role : Type :=
  Category | SalesAmount | DateOrdered | SatisfactionRating.

(** One [if ... is None: st.warning(...)]. *)
Definition warn (r : role) (col : option string) : list role :=
  match col with
  | None => [r]
  | Some _ => []
  end.

(** The warnings shown for a table, in the order of the four tests. *)
Definition warnings (df : DataFrame) : list role :=
  let category_col :=
    Resolver.detect_column (columns df) Resolver.category_candidates in
  let sales_col :=
    Resolver.detect_column (columns df) Resolver.sales_candidates in
  let date_col :=
    Resolver.detect_column (columns df) Resolver.date_candidates in
  let satisfaction_col :=
    Resolver.detect_column (columns df) Resolver.satisfaction_candidates in
  warn Category category_col ++ warn SalesAmount sales_col
  ++ warn DateOrdered date_col ++ warn SatisfactionRating satisfaction_col.

(** ** Reading the upload (lines 36-39) and the previews (lines 43-47) *)

(** [s.endswith(suffix)]: [s] is at least as long as [suffix] and its last
    characters are those of [suffix]. *)
Definition endswith (s suffix : string) : bool :=
  let n := String.length s in
  let m := String.length suffix in
  (m <=? n)%nat && String.eqb (substring (n - m) m s) suffix.

Inductive reader : Type := read_csv | read_excel.

(** The reader the script hands the upload to, chosen by the file name. *)
Definition choose_reader (name : string) : reader :=
  if endswith name ".csv" then read_csv else read_excel.

(** [df.head()] and [df.tail()]: the first and the last five rows. *)
Definition head (df : DataFrame) : DataFrame :=
  {| columns := columns df; rows := take 5 (rows df) |}.

Definition tail (df : DataFrame) : DataFrame :=
  {| columns := columns df;
     rows := drop (length (rows df) - 5) (rows df) |}.

(** ** The tabs with their chart calls, on a numeric sales column *)

(** The arithmetic pandas and Python do on the numbers of a numeric column:
    64-bit integers wrap around and floats are rounded, so the four
    operations are taken as they come.  [group_add] is the sum
    [groupby(...).sum()] forms of the present values of a group,
    [series_add] the sum [Series.sum()] forms, [quot] and [prod] are [/]
    and [*].  Their results are numbers: a float sum that overflows is
    outside this model. *)
Record arith : Type := mkArith {
  group_add : list Q -> Q;
  series_add : list Q -> Q;
  quot : Q -> Q -> Q;
  prod : Q -> Q -> Q
}.

(** Arithmetic without wrap-around or rounding: what the machine computes
    on a few small integers. *)
Definition exact_arith : arith :=
  {| group_add := sum_Q; series_add := sum_Q; quot := Qdiv; prod := Qmult |}.

(** The cells of a column of numeric dtype: numbers and missing values.
    A column that holds a text has no such reading. *)
Definition number (c : cell) : option (option Q) :=
  match c with
  | Num q => Some (Some q)
  | NaN => Some None
  | Str _ => None
  end.

Definition numbers (l : list cell) : option (list (option Q)) :=
  mapM number l.

Definition present (l : list (option Q)) : list Q := omap id l.

(** A sum that skips the missing values; without a present value it is 0. *)
Definition machine_sum (add : list Q -> Q) (l : list (option Q)) : Q :=
  match present l with
  | [] => 0%Q
  | v :: vs => add (v :: vs)
  end.

(** [groupby(key)[col].sum()] on the rows whose key is present: one entry
    per distinct label, in ascending label order. *)
Definition group_totals {K} (a : arith) (cmp : K -> K -> comparison)
  (l : list (K * option Q)) : list (K * Q) :=
  map (fun g => (g.1, machine_sum (group_add a) g.2))
      (sort_labels cmp (group_rows cmp l)).

(** [sort_values(ascending=False)]: descending by value.  The order of
    entries of equal value is left to numpy's sort; here they keep the
    order they had, and no statement below depends on it. *)
Fixpoint insert_desc {K} (x : K * Q) (l : list (K * Q)) : list (K * Q) :=
  match l with
  | [] => [x]
  | y :: r => if Qle_bool y.2 x.2 then x :: y :: r else y :: insert_desc x r
  end.

Definition sort_desc {K} (l : list (K * Q)) : list (K * Q) :=
  foldr insert_desc [] l.

(** A chart call ([ax.bar] with [st.pyplot], [ax2.plot] with [plt.xticks],
    [plt.tight_layout] and [st.pyplot]): it draws the series or raises.
    What matplotlib accepts is its own matter; the tabs are stated for
    any such call. *)
Definition chart (K : Type) : Type := list (K * Q) -> result unit.

(** A chart call that returns. *)
Definition drawn {K} : chart K := fun _ => Ok tt.

(** Lines 78-82. *)
Definition category_rows (cats : list cell) (sales : list (option Q))
  : list (cell * option Q) :=
  filter (fun r => Is_true (notna r.1)) (zip cats sales).

Definition category_series (a : arith) (cats : list cell)
  (sales : list (option Q)) : list (cell * Q) :=
  sort_desc (group_totals a cell_compare (category_rows cats sales)).

(** [Series.sum()] of the totals. *)
Definition series_total {K} (a : arith) (l : list (K * Q)) : Q :=
  match map snd l with
  | [] => 0%Q
  | v :: vs => series_add a (v :: vs)
  end.

(** The division of line 99.  A zero divisor is marked by an exception,
    so that a share that is [Ok] was not computed with one. *)
Definition machine_div (a : arith) (x y : Q) : result Q :=
  if Qeq_bool y 0 then Raise ZeroDivisionError else Ok (quot a x y).

(** Lines 98-101. *)
Definition top_share (a : arith) (top_value total_sales : Q) : result Q :=
  if Qltb 0 total_sales
  then share ← machine_div a top_value total_sales; Ok (prod a share 100)
  else Ok 0%Q.

(** Lines 78-113 for the category column [cats] and the numeric sales
    column [sales]: the series, the chart, then the interpretation. *)
Definition category_tab (a : arith) (bar : chart cell) (cats : list cell)
  (sales : list (option Q)) : result (view category_summary) :=
  let series := category_series a cats sales in
  _ ← bar series;
  match series with
  | [] => Ok NoData
  | first :: rest =>
      let top := argmax_from Qltb first rest in
      let total := series_total a (first :: rest) in
      pct ← top_share a top.2 total;
      Ok (Shown {| category_sales := first :: rest;
                   top_category := top.1;
                   top_value := top.2;
                   total_sales := total;
                   top_pct := pct |})
  end.

(** Timestamps count the seconds since 1970-01-01 00:00; [date()] is the
    day a timestamp falls on. *)
Definition day_of (ts : Z) : Z := (ts / 86400)%Z.

(** Lines 126-132: the rows whose coerced date is a timestamp. *)
Definition dated_sales (coerced : list (option Z)) (sales : list (option Q))
  : list (Z * option Q) :=
  omap (fun r => d ← r.1; Some (d, r.2)) (zip coerced sales).

(** Lines 135-139: the rows are grouped by their timestamp. *)
Definition daily_series (a : arith) (coerced : list (option Z))
  (sales : list (option Q)) : list (Z * Q) :=
  sort_labels Z.compare (group_totals a Z.compare (dated_sales coerced sales)).

(** Lines 126-166 for the date column [dates] and the numeric sales column
    [sales]. *)
Definition time_tab (a : arith) (to_datetime : list cell -> list (option Z))
  (line : chart Z) (dates : list cell) (sales : list (option Q))
  : result (view time_summary) :=
  match daily_series a (to_datetime dates) sales with
  | [] => Ok NoData
  | first :: rest =>
      _ ← line (first :: rest);
      let peak := argmax_from Qltb first rest in
      Ok (Shown {| daily_sales := first :: rest;
                   max_date := peak.1;
                   max_value := peak.2 |})
  end.

(** [series] holds, for the rows [l], one entry per label that occurs,
    with the value [f] of the cells of the rows with that label. *)
Definition series_of_groups {K A} (f : list A -> Q)
  (cmp : K -> K -> comparison) (l : list (K * A)) (series : list (K * Q))
  : Prop :=
  distinct_labels cmp (map fst series)
  ∧ (∀ t, t ∈ series -> t.1 ∈ map fst l ∧ t.2 = f (group_of cmp t.1 l))
  ∧ (∀ r, r ∈ l -> ∃ t, t ∈ series ∧ Is_true (keq cmp t.1 r.1)).

(** Two sales of one day, at 09:00 and at 17:00 of 2024-01-01. *)
Definition morning : Z := 1704099600.
Definition evening : Z := 1704128400.

(** A table whose only row has a category and no sales value. *)
Definition unsold_table : DataFrame :=
  mkDataFrame ["Category"; "Sales"] [[Str "Juice"; NaN]].

(** * Properties *)

(** ** Column detection *)

Section ResolverFacts.
Import Resolver.

Lemma cols_lower_snoc (cols : list string) (c : string) :
    cols_lower (cols ++ [c]) = <[lower c := c]> (cols_lower cols).
Proof. unfold cols_lower. now rewrite foldl_app. Qed.

  (** A key of the dict is the lowered name of the column it holds. *)
Lemma cols_lower_sound (cols : list string) (k c : string) :
    cols_lower cols !! k = Some c -> c ∈ cols ∧ lower c = k.
Proof.
    induction cols as [| x cols IH] using rev_ind; intros Hk.
    - discriminate Hk.
    - rewrite cols_lower_snoc in Hk.
      destruct (decide (lower x = k)) as [<- | Hne].
      + rewrite lookup_insert_eq in Hk. injection Hk as <-.
        split; [| reflexivity].
        apply elem_of_app. right. now apply list_elem_of_singleton.
      + rewrite lookup_insert_ne in Hk by assumption.
        destruct (IH Hk) as [Hin Hl]. split; [| exact Hl].
        apply elem_of_app. now left.
Qed.

  (** Every column is reachable under its lowered name. *)
Lemma cols_lower_complete (cols : list string) (c : string) :
    c ∈ cols -> is_Some (cols_lower cols !! lower c).
Proof.
    induction cols as [| x cols IH] using rev_ind; intros Hin.
    - inversion Hin.
    - rewrite cols_lower_snoc.
      destruct (decide (lower x = lower c)) as [He | Hne].
      + rewrite He, lookup_insert_eq. eauto.
      + rewrite lookup_insert_ne by assumption. apply IH.
        apply elem_of_app in Hin as [Hin | Hin]; [exact Hin |].
        apply list_elem_of_singleton in Hin. congruence.
Qed.

Lemma lookup_matches (cols : list string) (a : string) :
    is_Some (cols_lower cols !! lower a) <-> matches cols a.
Proof.
    split.
    - intros [c Hc]. exists c. now apply cols_lower_sound.
    - intros (c & Hin & Hl). rewrite <- Hl. now apply cols_lower_complete.
Qed.
End ResolverFacts.

Section ResolverClaims.
Import Resolver.

Lemma first_match_none (m : gmap string string) (cands : list string) :
  first_match m cands = None <-> Forall (fun a => m !! lower a = None) cands.
Proof.
  induction cands as [| a cands IH]; simpl.
  - split; [constructor | reflexivity].
  - destruct (m !! lower a) as [c |] eqn:Ha.
    + split; [discriminate |]. intros H. inversion H; congruence.
    + rewrite IH. split; [now constructor | now inversion 1].
Qed.

Lemma first_match_some (m : gmap string string) (cands : list string)
  (c : string) :
  first_match m cands = Some c ->
  ∃ pre a post, cands = pre ++ a :: post
    ∧ Forall (fun b => m !! lower b = None) pre
    ∧ m !! lower a = Some c.
Proof.
  induction cands as [| a cands IH]; simpl; [discriminate |].
  destruct (m !! lower a) as [c' |] eqn:Ha.
  - intros [= ->]. exists [], a, cands. repeat split; [constructor | exact Ha].
  - intros H. destruct (IH H) as (pre & b & post & -> & Hpre & Hb).
    exists (a :: pre), b, post. repeat split; [now constructor | exact Hb].
Qed.

(** C1. [detect_column] returns, under the spelling the table uses, the
    column matched by the first candidate (in the order of the list) that
    equals some column name up to letter case, and [None] exactly when no
    candidate matches; this holds for any candidate list, so for the four
    lists of the script, and a table with a column "CATEGORY" resolves the
    category role. *)
Theorem detect_column_first_match :
  (∀ cols cands : list string,
     match detect_column cols cands with
     | Some c =>
         ∃ pre a post, cands = pre ++ a :: post
           ∧ (∀ b, b ∈ pre -> ¬ matches cols b)
           ∧ c ∈ cols ∧ lower c = lower a
     | None => ∀ a, a ∈ cands -> ¬ matches cols a
     end)
  ∧ (∀ cols : list string, "CATEGORY" ∈ cols ->
       ∃ c, detect_column cols category_candidates = Some c
            ∧ c ∈ cols ∧ lower c = "category")
  ∧ detect_column ["Order ID"; "CATEGORY"; "sales"] category_candidates
      = Some "CATEGORY"
  ∧ detect_column ["Order ID"; "Total Sales"; "SALES"] sales_candidates
      = Some "SALES"
  ∧ detect_column ["Order ID"; "Qty"] date_candidates = None.
Proof.
  split; [| split; [| repeat split; vm_compute; reflexivity]].
  - intros cols cands. unfold detect_column.
    destruct (first_match (cols_lower cols) cands) as [c |] eqn:Hm.
    + apply first_match_some in Hm as (pre & a & post & -> & Hpre & Ha).
      exists pre, a, post. split; [reflexivity |]. split.
      * intros b Hb Hmb. apply lookup_matches in Hmb as [x Hx].
        rewrite Forall_forall in Hpre. rewrite (Hpre b Hb) in Hx. discriminate.
      * now apply cols_lower_sound.
    + apply first_match_none in Hm. rewrite Forall_forall in Hm.
      intros a Ha Hma. apply lookup_matches in Hma as [x Hx].
      rewrite (Hm a Ha) in Hx. discriminate.
  - intros cols Hin. unfold detect_column, category_candidates.
    destruct (cols_lower_complete cols "CATEGORY" Hin) as [c Hc].
    cbn [first_match]. change (lower "Category") with (lower "CATEGORY").
    rewrite Hc. exists c. split; [reflexivity |].
    now apply cols_lower_sound in Hc.
Qed.
End ResolverClaims.

(** ** Grouping *)

Lemma filter_none {A} (P : A -> Prop) `{∀ x, Decision (P x)} (l : list A) :
  (∀ x, x ∈ l -> ¬ P x) -> filter P l = [].
Proof.
  induction l as [| a l IH]; intros Hl; [reflexivity |].
  rewrite filter_cons_False by (apply Hl; now left).
  apply IH. intros x Hx. apply Hl. now right.
Qed.

Section GroupingFacts.
Context {K : Type} (cmp : K -> K -> comparison).
Hypothesis cmp_refl : ∀ x, cmp x x = Eq.
Hypothesis cmp_antisym : ∀ x y, cmp y x = CompOpp (cmp x y).
Hypothesis cmp_eq_l : ∀ x y z, cmp x y = Eq -> cmp x z = cmp y z.

Lemma keq_refl (x : K) : Is_true (keq cmp x x).
Proof. unfold keq. now rewrite cmp_refl. Qed.

Lemma keq_sym (x y : K) : keq cmp x y = keq cmp y x.
Proof. unfold keq. rewrite (cmp_antisym x y). now destruct (cmp x y). Qed.

Lemma keq_Eq (x y : K) : Is_true (keq cmp x y) <-> cmp x y = Eq.
Proof. unfold keq. destruct (cmp x y); simpl; intuition congruence. Qed.

Lemma keq_trans_l (x y z : K) :
  Is_true (keq cmp x y) -> keq cmp x z = keq cmp y z.
Proof. intros H%keq_Eq. unfold keq. now rewrite (cmp_eq_l _ _ z H). Qed.

Lemma add_row_extend {A} (k : K) (a : A) (gs : list (K * list A)) :
  distinct_labels cmp (map fst gs) ->
  add_row cmp k a gs
  = map (extend cmp k a) gs
    ++ (if existsb (fun g => keq cmp g.1 k) gs then [] else [(k, [a])]).
Proof.
  induction gs as [| [k' l] gs IH]; intros [Hnd Heq]; [reflexivity |].
  simpl in *. unfold extend at 1. simpl.
  apply NoDup_cons in Hnd as [Hk' Hnd].
  destruct (keq cmp k' k) eqn:Hk; simpl.
  - f_equal. rewrite app_nil_r. symmetry.
    rewrite <- (map_id gs) at 2. apply map_ext_in. intros g Hg.
    unfold extend. destruct (keq cmp g.1 k) eqn:Hgk; [| reflexivity].
    exfalso. apply Hk'.
    assert (Hin : g.1 ∈ map fst gs).
    { apply list_elem_of_In, in_map, Hg. }
    rewrite (Heq k' g.1); [exact Hin | left | now right |].
    rewrite (keq_trans_l k' k); [rewrite keq_sym, Hgk; exact I |].
    now rewrite Hk.
  - f_equal. apply IH. split; [exact Hnd |].
    intros x y Hx Hy. apply Heq; now right.
Qed.

Lemma fst_extend {A} (k : K) (a : A) (g : K * list A) :
  (extend cmp k a g).1 = g.1.
Proof. unfold extend. now destruct (keq cmp g.1 k). Qed.

Lemma group_of_snoc {A} (k : K) (l : list (K * A)) (r : K * A) :
  group_of cmp k (l ++ [r])
  = group_of cmp k l ++ (if keq cmp k r.1 then [r.2] else []).
Proof.
  unfold group_of. rewrite filter_app, map_app. f_equal.
  rewrite filter_cons, filter_nil.
  destruct (decide (Is_true (keq cmp k r.1))) as [Hk | Hk].
  - now apply Is_true_true in Hk as ->.
  - now apply Is_true_false in Hk as ->.
Qed.

Lemma group_rows_snoc {A} (l : list (K * A)) (r : K * A) :
  group_rows cmp (l ++ [r]) = add_row cmp r.1 r.2 (group_rows cmp l).
Proof. unfold group_rows. now rewrite foldl_app. Qed.

Lemma existsb_label {A} (k : K) (gs : list (K * list A)) :
  existsb (fun g => keq cmp g.1 k) gs = true
  <-> ∃ g, g ∈ gs ∧ Is_true (keq cmp g.1 k).
Proof.
  rewrite existsb_exists. split; intros (g & Hg & Hk); exists g.
  - split; [now apply list_elem_of_In | now rewrite Hk].
  - split; [now apply list_elem_of_In | now apply Is_true_true].
Qed.

(** The groups [group_rows] builds: their labels are distinct, each group
    holds the values of the rows with its label, each label is one of the
    rows', and every row is in a group. *)
Lemma group_rows_spec {A} (l : list (K * A)) :
  distinct_labels cmp (map fst (group_rows cmp l))
  ∧ (∀ g, g ∈ group_rows cmp l ->
       g.2 = group_of cmp g.1 l ∧ g.1 ∈ map fst l)
  ∧ (∀ r, r ∈ l ->
       ∃ g, g ∈ group_rows cmp l ∧ Is_true (keq cmp g.1 r.1)).
Proof.
  induction l as [| r l IH] using rev_ind.
  - split; [split |]; [now apply NoDup_nil | |].
    + intros a b Ha. inversion Ha.
    + split; intros x Hx; inversion Hx.
  - destruct IH as (Hd & Hg & Hr).
    rewrite group_rows_snoc, (add_row_extend _ _ _ Hd).
    set (gs := group_rows cmp l) in *.
    destruct (existsb _ gs) eqn:Hex.
    + rewrite app_nil_r. split; [| split].
      * rewrite map_map. erewrite map_ext; [exact Hd |].
        intros g. apply fst_extend.
      * intros g' Hg'. apply list_elem_of_fmap in Hg' as (g & -> & Hin).
        destruct (Hg g Hin) as [H2 H1]. rewrite fst_extend.
        split; [| rewrite map_app; apply elem_of_app; now left].
        rewrite group_of_snoc. unfold extend.
        destruct (keq cmp g.1 r.1); simpl; [now rewrite H2 |].
        now rewrite app_nil_r.
      * intros r' Hr'. apply elem_of_app in Hr' as [Hr' | Hr'].
        -- destruct (Hr r' Hr') as (g & Hin & Hk).
           exists (extend cmp r.1 r.2 g). rewrite fst_extend.
           split; [| exact Hk]. apply list_elem_of_fmap. eauto.
        -- apply list_elem_of_singleton in Hr' as ->.
           apply existsb_label in Hex as (g & Hin & Hk).
           exists (extend cmp r.1 r.2 g). rewrite fst_extend.
           split; [| exact Hk]. apply list_elem_of_fmap. eauto.
    + assert (Hno : ∀ g, g ∈ gs -> ¬ Is_true (keq cmp g.1 r.1)).
      { intros g Hin Hk. assert (existsb (fun g => keq cmp g.1 r.1) gs = true)
          by (apply existsb_label; eauto). congruence. }
      split; [| split].
      * rewrite map_app, map_map. simpl.
        erewrite (map_ext _ fst) by (intros g; apply fst_extend).
        destruct Hd as [Hnd Heq].
        assert (Hfresh : ∀ k, k ∈ map fst gs -> ¬ Is_true (keq cmp k r.1)).
        { intros k Hk. apply list_elem_of_fmap in Hk as (g & -> & Hin).
          now apply Hno. }
        split.
        -- apply NoDup_app. split; [exact Hnd |]. split; [| apply NoDup_singleton].
           intros k Hk Hk'. apply list_elem_of_singleton in Hk' as ->.
           apply (Hfresh _ Hk), keq_refl.
        -- intros a b Ha Hb Hab.
           apply elem_of_app in Ha as [Ha | Ha], Hb as [Hb | Hb].
           ++ now apply Heq.
           ++ apply list_elem_of_singleton in Hb as ->.
              now destruct (Hfresh _ Ha).
           ++ apply list_elem_of_singleton in Ha as ->.
              rewrite keq_sym in Hab. now destruct (Hfresh _ Hb).
           ++ apply list_elem_of_singleton in Ha as ->.
              now apply list_elem_of_singleton in Hb as ->.
      * intros g' Hg'. rewrite map_app. apply elem_of_app in Hg' as [Hg' | Hg'].
        -- apply list_elem_of_fmap in Hg' as (g & -> & Hin).
           destruct (Hg g Hin) as [H2 H1]. rewrite fst_extend.
           split; [| apply elem_of_app; now left].
           rewrite group_of_snoc. unfold extend.
           destruct (keq cmp g.1 r.1); simpl; [now rewrite H2 |].
           now rewrite app_nil_r.
        -- apply list_elem_of_singleton in Hg' as ->. simpl.
           split; [| apply elem_of_app; right; now apply list_elem_of_singleton].
           rewrite group_of_snoc.
           pose proof (keq_refl r.1) as Hrr. apply Is_true_true in Hrr as ->.
           replace (group_of cmp r.1 l) with (@nil A); [reflexivity |].
           symmetry. unfold group_of.
           replace (filter _ l) with (@nil (K * A)); [reflexivity |].
           symmetry. apply filter_none.
           intros r' Hr' Hk. destruct (Hr r' Hr') as (g & Hin & Hgk).
           apply (Hno g Hin).
           rewrite keq_sym, (keq_trans_l r.1 r'.1) by exact Hk.
           now rewrite keq_sym.
      * intros r' Hr'. apply elem_of_app in Hr' as [Hr' | Hr'].
        -- destruct (Hr r' Hr') as (g & Hin & Hk).
           exists (extend cmp r.1 r.2 g). rewrite fst_extend.
           split; [| exact Hk]. apply elem_of_app. left.
           apply list_elem_of_fmap. eauto.
        -- apply list_elem_of_singleton in Hr' as ->.
           exists (r.1, [r.2]). simpl. split; [| apply keq_refl].
           apply elem_of_app. right. now apply list_elem_of_singleton.
Qed.
End GroupingFacts.

(** ** Sorting by label *)

Section SortingFacts.
Context {K : Type} (cmp : K -> K -> comparison).
Hypothesis cmp_antisym : ∀ x y, cmp y x = CompOpp (cmp x y).
Hypothesis cmp_eq_l : ∀ x y z, cmp x y = Eq -> cmp x z = cmp y z.
Hypothesis cmp_lt_trans :
  ∀ x y z, cmp x y = Lt -> cmp y z = Lt -> cmp x z = Lt.

Lemma kle_total (x y : K) : kle cmp x y ∨ kle cmp y x.
Proof.
  unfold kle. rewrite (cmp_antisym x y).
  destruct (cmp x y); simpl; auto.
Qed.

Lemma kle_trans (x y z : K) : kle cmp x y -> kle cmp y z -> kle cmp x z.
Proof.
  unfold kle. destruct (cmp x y) eqn:Hxy; [| | contradiction]; intros _.
  - now rewrite (cmp_eq_l _ _ z Hxy).
  - destruct (cmp y z) eqn:Hyz; [| | contradiction]; intros _.
    + assert (Hzy : cmp z y = Eq) by (rewrite cmp_antisym, Hyz; reflexivity).
      rewrite (cmp_antisym z x), (cmp_eq_l _ _ x Hzy), (cmp_antisym x y), Hxy.
      exact I.
    + now rewrite (cmp_lt_trans _ _ _ Hxy Hyz).
Qed.

#[local] Instance by_label_total {V} : Total (@by_label K cmp V).
Proof. intros x y. apply kle_total. Qed.

#[local] Instance by_label_trans {V} : Transitive (@by_label K cmp V).
Proof. intros x y z. apply kle_trans. Qed.

Lemma sort_labels_perm {V} (l : list (K * V)) : sort_labels cmp l ≡ₚ l.
Proof. apply merge_sort_Permutation. Qed.

Lemma sort_labels_sorted {V} (l : list (K * V)) :
  StronglySorted (by_label cmp) (sort_labels cmp l).
Proof. apply StronglySorted_merge_sort; apply _. Qed.

Lemma distinct_labels_perm (ks ks' : list K) :
  ks ≡ₚ ks' -> distinct_labels cmp ks -> distinct_labels cmp ks'.
Proof.
  intros Hp [Hnd Heq]. split; [now rewrite <- Hp |].
  intros a b Ha Hb. apply Heq; now rewrite Hp.
Qed.

(** A list sorted by label whose labels are distinct ascends strictly. *)
Lemma sorted_distinct_strict {V} (l : list (K * V)) :
  StronglySorted (by_label cmp) l ->
  distinct_labels cmp (map fst l) ->
  StronglySorted (label_lt cmp) l.
Proof.
  induction 1 as [| x l Hs IH Hx]; intros [Hnd Heq]; [constructor |].
  simpl in Hnd. apply NoDup_cons in Hnd as [Hnin Hnd].
  constructor.
  - apply IH. split; [exact Hnd |].
    intros a b Ha Hb. apply Heq; now right.
  - rewrite Forall_forall in Hx |- *. intros y Hy.
    specialize (Hx y Hy). unfold by_label, kle in Hx. unfold label_lt, klt.
    destruct (cmp x.1 y.1) eqn:Hc; [| reflexivity | contradiction].
    exfalso. apply Hnin.
    assert (Hin : y.1 ∈ map fst l) by (apply list_elem_of_fmap; eauto).
    rewrite (Heq x.1 y.1); [exact Hin | now left | now right |].
    unfold keq. now rewrite Hc.
Qed.

Lemma sort_labels_strict {V} (l : list (K * V)) :
  distinct_labels cmp (map fst l) ->
  StronglySorted (label_lt cmp) (sort_labels cmp l).
Proof.
  intros Hd. apply sorted_distinct_strict; [apply sort_labels_sorted |].
  apply (distinct_labels_perm (map fst l)); [| exact Hd].
  symmetry. apply fmap_Permutation, sort_labels_perm.
Qed.
End SortingFacts.

(** ** The order of labels is a total preorder *)

Lemma string_compare_refl (s : string) : String.compare s s = Eq.
Proof.
  induction s as [| c s IH]; [reflexivity |]. simpl.
  unfold Ascii.compare. now rewrite N.compare_refl.
Qed.

Lemma string_compare_lt_trans (s t u : string) :
  String.compare s t = Lt -> String.compare t u = Lt ->
  String.compare s u = Lt.
Proof.
  revert t u. induction s as [| a s IH]; intros [| b t] [| c u];
    simpl; try easy.
  unfold Ascii.compare.
  destruct (N.compare_spec (N_of_ascii a) (N_of_ascii b)) as [Hab | Hab | Hab];
    try easy;
    destruct (N.compare_spec (N_of_ascii b) (N_of_ascii c)) as [Hbc | Hbc | Hbc];
    try easy; intros H1 H2.
  - rewrite Hab, Hbc, N.compare_refl. eauto.
  - rewrite Hab. now apply N.compare_lt_iff in Hbc as ->.
  - rewrite <- Hbc. now apply N.compare_lt_iff in Hab as ->.
  - assert (H : (N_of_ascii a < N_of_ascii c)%N) by lia.
    now apply N.compare_lt_iff in H as ->.
Qed.

Lemma cell_compare_refl (x : cell) : cell_compare x x = Eq.
Proof.
  destruct x as [q | s |]; simpl; [| apply string_compare_refl | reflexivity].
  apply Qeq_alt. reflexivity.
Qed.

Lemma cell_compare_antisym (x y : cell) :
  cell_compare y x = CompOpp (cell_compare x y).
Proof.
  destruct x as [p | s |], y as [q | t |]; simpl; try reflexivity.
  - symmetry. apply Qcompare_antisym.
  - apply String.compare_antisym.
Qed.

Lemma cell_compare_eq_l (x y z : cell) :
  cell_compare x y = Eq -> cell_compare x z = cell_compare y z.
Proof.
  destruct x as [p | s |], y as [q | t |]; simpl; try discriminate; intros H.
  - destruct z as [r | u |]; simpl; try reflexivity.
    apply Qeq_alt in H. now rewrite H.
  - now apply String.compare_eq_iff in H as ->.
  - reflexivity.
Qed.

Lemma cell_compare_lt_trans (x y z : cell) :
  cell_compare x y = Lt -> cell_compare y z = Lt -> cell_compare x z = Lt.
Proof.
  destruct x as [p | s |], y as [q | t |], z as [r | u |]; simpl;
    try easy.
  - rewrite <- !Qlt_alt. apply Qlt_trans.
  - apply string_compare_lt_trans.
Qed.

Lemma Z_compare_antisym (x y : Z) : (y ?= x)%Z = CompOpp (x ?= y)%Z.
Proof. apply Z.compare_antisym. Qed.

Lemma Z_compare_eq_l (x y z : Z) :
  (x ?= y)%Z = Eq -> (x ?= z)%Z = (y ?= z)%Z.
Proof. now intros ->%Z.compare_eq. Qed.

Lemma Z_compare_lt_trans (x y z : Z) :
  (x ?= y)%Z = Lt -> (y ?= z)%Z = Lt -> (x ?= z)%Z = Lt.
Proof. rewrite !Z.compare_lt_iff. lia. Qed.

(** ** Sums of numeric cells *)






Lemma Forall2_elem_of_left {A B} (R : A -> B -> Prop) (l : list A)
  (k : list B) :
  Forall2 R l k -> ∀ x, x ∈ l -> ∃ y, y ∈ k ∧ R x y.
Proof.
  induction 1 as [| x y l k HR HF IH]; intros z Hz; [inversion Hz |].
  apply elem_of_cons in Hz as [-> | Hz].
  - exists y. split; [now left | exact HR].
  - destruct (IH z Hz) as (y' & Hy' & HR'). exists y'. split; [now right | exact HR'].
Qed.


(** Whether a list of pairs ascends strictly by label depends on its
    labels only. *)
Lemma strict_labels {K V} (cmp : K -> K -> comparison) (l : list (K * V)) :
  StronglySorted (label_lt cmp) l <-> StronglySorted (klt cmp) (map fst l).
Proof.
  induction l as [| x l IH]; simpl.
  - split; constructor.
  - destruct IH as [IH1 IH2]. split; intros H.
    + apply StronglySorted_inv in H as [Hs Hx].
      constructor; [auto |]. apply Forall_forall. intros k Hk.
      apply list_elem_of_fmap in Hk as (y & -> & Hy).
      exact (proj1 (Forall_forall _ _) Hx y Hy).
    + apply StronglySorted_inv in H as [Hs Hx].
      constructor; [auto |]. apply Forall_forall. intros y Hy.
      apply (proj1 (Forall_forall _ _) Hx). apply list_elem_of_fmap. eauto.
Qed.

(** ** groupby(...).sum() on numeric cells *)

Section AggregationFacts.
Context {K : Type} (cmp : K -> K -> comparison).
Hypothesis cmp_refl : ∀ x, cmp x x = Eq.
Hypothesis cmp_antisym : ∀ x y, cmp y x = CompOpp (cmp x y).
Hypothesis cmp_eq_l : ∀ x y z, cmp x y = Eq -> cmp x z = cmp y z.
Hypothesis cmp_lt_trans :
  ∀ x y z, cmp x y = Lt -> cmp y z = Lt -> cmp x z = Lt.



End AggregationFacts.

(** ** The first maximal entry *)

Section ArgmaxFacts.
Context {K V : Type} (ltb : V -> V -> bool) (le : V -> V -> Prop).
Hypothesis le_trans : ∀ a b c, le a b -> le b c -> le a c.
Hypothesis le_total : ∀ a b, le a b ∨ le b a.
Hypothesis ltb_false : ∀ a b, ltb a b = false <-> le b a.

Abbreviation below top := (fun x : K * V => ¬ le top.2 x.2).
Abbreviation upto top := (fun x : K * V => le x.2 top.2).

Lemma ltb_true (a b : V) : ltb a b = true -> ¬ le b a.
Proof. intros H Hle. apply ltb_false in Hle. congruence. Qed.

Lemma argmax_from_scan (l pre mid : list (K * V)) (best : K * V) :
  Forall (below best) pre -> Forall (upto best) mid ->
  ∃ pre' post,
    pre ++ best :: mid ++ l = pre' ++ argmax_from ltb best l :: post
    ∧ Forall (below (argmax_from ltb best l)) pre'
    ∧ Forall (upto (argmax_from ltb best l)) post.
Proof.
  revert pre mid best. induction l as [| x l IH]; intros pre mid best Hpre Hmid.
  - exists pre, mid. now rewrite app_nil_r.
  - simpl. destruct (ltb best.2 x.2) eqn:Hlt.
    + apply ltb_true in Hlt.
      destruct (IH (pre ++ best :: mid) [] x) as (pre' & post & He & H1 & H2).
      * apply Forall_app. split; [| apply Forall_cons; split; [exact Hlt |]].
        -- eapply Forall_impl; [exact Hpre |]. intros y Hy Hxy. simpl in *.
           destruct (le_total y.2 best.2) as [H | H]; [| contradiction].
           apply Hlt. eauto.
        -- eapply Forall_impl; [exact Hmid |]. intros y Hy Hxy. simpl in *.
           apply Hlt. eauto.
      * constructor.
      * exists pre', post. split; [| now split].
        rewrite <- He. simpl. rewrite <- app_assoc. reflexivity.
    + apply ltb_false in Hlt.
      destruct (IH pre (mid ++ [x]) best) as (pre' & post & He & H1 & H2).
      * exact Hpre.
      * apply Forall_app. split; [exact Hmid | now apply Forall_singleton].
      * exists pre', post. split; [| now split].
        rewrite <- He, <- app_assoc. reflexivity.
Qed.

(** [argmax_from] yields the first entry of the list whose value no other
    entry exceeds: every entry before it is strictly smaller. *)
Lemma argmax_from_first (first : K * V) (rest : list (K * V)) :
  ∃ pre post,
    first :: rest = pre ++ argmax_from ltb first rest :: post
    ∧ Forall (below (argmax_from ltb first rest)) pre
    ∧ Forall (upto (argmax_from ltb first rest)) post.
Proof. apply (argmax_from_scan rest [] [] first); constructor. Qed.
End ArgmaxFacts.

(** ** Facts used by the three tabs *)

Lemma bind_Ok {A B} (a : A) (k : A -> result B) : (x ← Ok a; k x) = k a.
Proof. reflexivity. Qed.

Lemma Qltb_false (a b : Q) : Qltb a b = false <-> (b <= a)%Q.
Proof.
  unfold Qltb. rewrite negb_false_iff. apply Qle_bool_iff.
Qed.

Lemma Qle_total (a b : Q) : (a <= b)%Q ∨ (b <= a)%Q.
Proof.
  destruct (Qlt_le_dec a b) as [H | H]; [left; now apply Qlt_le_weak | now right].
Qed.

#[local] Instance by_total_desc_total {K} : Total (@by_total_desc K).
Proof. intros x y. apply Qle_total. Qed.

#[local] Instance by_total_desc_trans {K} : Transitive (@by_total_desc K).
Proof. intros x y z Hxy Hyz. unfold by_total_desc in *. eapply Qle_trans; eauto. Qed.


Lemma sort_values_desc_sorted {K} (l : list (K * Q)) :
  StronglySorted by_total_desc (sort_values_desc l).
Proof. apply StronglySorted_merge_sort; apply _. Qed.

(** The top entry found by the scan is in the list and no total exceeds
    its total. *)
Lemma argmax_total {K} (first : K * Q) (rest : list (K * Q)) :
  argmax_from Qltb first rest ∈ first :: rest
  ∧ ∀ x, x ∈ first :: rest -> (x.2 <= (argmax_from Qltb first rest).2)%Q.
Proof.
  destruct (argmax_from_first Qltb Qle Qle_trans Qle_total Qltb_false
              first rest) as (pre & post & -> & Hpre & Hpost).
  split.
  - apply elem_of_app. right. now left.
  - intros x Hx. apply elem_of_app in Hx as [Hx | Hx].
    + destruct (Qle_total x.2 (argmax_from Qltb first rest).2) as [H | H];
        [exact H |].
      now destruct (proj1 (Forall_forall _ _) Hpre x Hx).
    + apply elem_of_cons in Hx as [-> | Hx]; [apply Qle_refl |].
      exact (proj1 (Forall_forall _ _) Hpost x Hx).
Qed.


(** ** Tab 1 *)

Lemma Qltb_true (a b : Q) : Qltb a b = true <-> (a < b)%Q.
Proof.
  unfold Qltb. rewrite negb_true_iff, <- not_true_iff_false, Qle_bool_iff.
  split; [apply Qnot_le_lt | apply Qlt_not_le].
Qed.

(** The guard of line 98 keeps the division away from a zero divisor. *)
Lemma share_pct_ok (top_value total : Q) :
  share_pct top_value total = Ok (share_of top_value total).
Proof.
  unfold share_pct, share_of, py_div.
  destruct (Qltb 0 total) eqn:Hpos; [| reflexivity].
  apply Qltb_true in Hpos.
  destruct (Qeq_bool total 0) eqn:Hz; [| reflexivity].
  apply Qeq_bool_iff in Hz. rewrite Hz in Hpos.
  now apply Qlt_irrefl in Hpos.
Qed.


(** ** Tab 2 *)




(** ** Sums that meet a text *)

Lemma sum_from_text (s : string) (l : list cell) :
  sum_from (Str s) l = Raise TypeError ∨ ∃ s', sum_from (Str s) l = Ok (Str s').
Proof.
  revert s. induction l as [| c l IH]; intros s; simpl; [eauto |].
  destruct c as [q | t |]; simpl; [now left | apply IH | apply IH].
Qed.

Lemma sum_from_number_text (q : Q) (l : list cell) :
  (∃ s, Str s ∈ l) -> sum_from (Num q) l = Raise TypeError.
Proof.
  revert q. induction l as [| c l IH]; intros q [s Hs]; [inversion Hs |].
  destruct c as [p | t |]; simpl; [| reflexivity |];
    apply IH; exists s; apply elem_of_cons in Hs as [Hs | Hs];
    (discriminate || exact Hs).
Qed.

(** A group that holds a text does not sum to a number. *)
Lemma group_sum_text (l : list cell) :
  (∃ s, Str s ∈ l) ->
  group_sum l = Raise TypeError ∨ ∃ s', group_sum l = Ok (Str s').
Proof.
  induction l as [| c l IH]; intros [s Hs]; [inversion Hs |].
  destruct c as [p | t |]; simpl.
  - left. apply sum_from_number_text. exists s.
    apply elem_of_cons in Hs as [Hs | Hs]; [discriminate | exact Hs].
  - apply sum_from_text.
  - apply IH. exists s.
    apply elem_of_cons in Hs as [Hs | Hs]; [discriminate | exact Hs].
Qed.

Lemma sum_from_cases (acc : cell) (l : list cell) :
  sum_from acc l = Raise TypeError ∨ ∃ c, sum_from acc l = Ok c.
Proof.
  revert acc. induction l as [| c l IH]; intros acc; simpl; [eauto |].
  destruct c as [p | t |]; [| | apply IH];
    destruct acc as [q | s |]; simpl; auto.
Qed.

Lemma group_sum_cases (l : list cell) :
  group_sum l = Raise TypeError ∨ ∃ c, group_sum l = Ok c.
Proof.
  induction l as [| c l IH]; simpl; [eauto |].
  destruct c as [p | t |]; [apply sum_from_cases | apply sum_from_cases | exact IH].
Qed.

Lemma mapM_result_cases {A B} (f : A -> result B) (l : list A) :
  (∀ a, a ∈ l -> f a = Raise TypeError ∨ ∃ b, f a = Ok b) ->
  mapM_result f l = Raise TypeError
  ∨ ∃ bs, mapM_result f l = Ok bs ∧ Forall2 (fun a b => f a = Ok b) l bs.
Proof.
  induction l as [| a l IH]; intros Hl; simpl.
  - right. exists []. split; [reflexivity | constructor].
  - destruct (Hl a) as [-> | [b Hb]]; [now left | now left |].
    rewrite Hb, bind_Ok.
    destruct IH as [-> | (bs & -> & HF)];
      [intros x Hx; apply Hl; now right | now left |].
    right. exists (b :: bs). split; [reflexivity | now constructor].
Qed.

(** A total that is a text stops the numeric steps. *)
Lemma numeric_totals_text {K} (sums : list (K * cell)) :
  (∃ s t, s ∈ sums ∧ s.2 = Str t) -> numeric_totals sums = Raise TypeError.
Proof.
  unfold numeric_totals.
  induction sums as [| [k c] sums IH]; intros (s & t & Hin & Ht);
    [inversion Hin |].
  simpl. destruct c as [q | u |]; try reflexivity.
  simpl. rewrite IH; [reflexivity |].
  apply elem_of_cons in Hin as [-> | Hin]; [discriminate | eauto].
Qed.

Section TextFacts.
Context {K : Type} (cmp : K -> K -> comparison).
Hypothesis cmp_refl : ∀ x, cmp x x = Eq.
Hypothesis cmp_antisym : ∀ x y, cmp y x = CompOpp (cmp x y).
Hypothesis cmp_eq_l : ∀ x y z, cmp x y = Eq -> cmp x z = cmp y z.

(** When a row that is summed holds a text, the grouped sum raises or has
    a total that is a text. *)
Lemma groupby_sum_text (l : list (K * cell)) :
  (∃ r t, r ∈ l ∧ r.2 = Str t) ->
  groupby_sum cmp l = Raise TypeError
  ∨ ∃ sums, groupby_sum cmp l = Ok sums ∧ ∃ s t, s ∈ sums ∧ s.2 = Str t.
Proof.
  intros (r & t & Hr & Ht).
  destruct (group_rows_spec cmp cmp_refl cmp_antisym cmp_eq_l l)
    as (_ & Hg & Hrows).
  destruct (Hrows r Hr) as (g & Hgin & Hk).
  assert (Htext : ∃ u, Str u ∈ g.2).
  { exists t. destruct (Hg g Hgin) as [-> _]. unfold group_of.
    apply list_elem_of_fmap. exists r. split; [now symmetry |].
    apply list_elem_of_filter. now split. }
  rewrite <- (sort_labels_perm cmp (group_rows cmp l)) in Hgin.
  unfold groupby_sum.
  destruct (mapM_result_cases
              (fun g : K * list cell => t ← group_sum g.2; Ok (g.1, t))
              (sort_labels cmp (group_rows cmp l))) as [-> | (sums & -> & HF)].
  - intros a _. destruct (group_sum_cases a.2) as [-> | [c ->]]; eauto.
  - now left.
  - right. exists sums. split; [reflexivity |].
    destruct (Forall2_elem_of_left _ _ _ HF g Hgin) as (s & Hs & Hfs).
    destruct (group_sum_text g.2 Htext) as [He | [u He]];
      rewrite He in Hfs; [discriminate |].
    injection Hfs as <-. exists (g.1, Str u), u. now split.
Qed.
End TextFacts.

(** ** Tab 1 and text in the sales column *)




(** ** Tab 3 *)

Lemma counts_of_values_perm (l : list cell) (c c' : list (cell * nat)) :
  c ≡ₚ c' -> counts_of_values l c -> counts_of_values l c'.
Proof.
  intros Hp (Hd & Hc & Hl). split; [| split].
  - apply (distinct_labels_perm cell_compare (map fst c)); [| exact Hd].
    now apply fmap_Permutation.
  - intros x Hx. apply Hc. now rewrite Hp.
  - intros v Hv. destruct (Hl v Hv) as (x & Hx & Hk).
    exists x. split; [now rewrite <- Hp | exact Hk].
Qed.

Lemma group_of_unit_length (k : cell) (l : list cell) :
  length (group_of cell_compare k (map (fun c => (c, tt)) l)) = count_of k l.
Proof.
  unfold group_of, count_of. rewrite length_map.
  induction l as [| c l IH]; [reflexivity |]. simpl.
  rewrite !filter_cons. simpl.
  destruct (decide (Is_true (keq cell_compare k c))); simpl; now rewrite IH.
Qed.

Lemma value_counts_spec (l : list cell) :
  counts_of_values l (value_counts l).
Proof.
  unfold value_counts.
  eapply counts_of_values_perm; [symmetry; apply merge_sort_Permutation |].
  destruct (group_rows_spec cell_compare cell_compare_refl
              cell_compare_antisym cell_compare_eq_l
              (map (fun c => (c, tt)) l)) as (Hd & Hg & Hr).
  split; [| split].
  - rewrite map_map. exact Hd.
  - intros x Hx. apply list_elem_of_fmap in Hx as (g & -> & Hin). simpl.
    destruct (Hg g Hin) as [H2 H1]. split.
    + rewrite map_map, map_id in H1. exact H1.
    + now rewrite H2, group_of_unit_length.
  - intros c Hc.
    destruct (Hr (c, tt)) as (g & Hin & Hk);
      [apply list_elem_of_fmap; eauto |].
    exists (g.1, length g.2). split; [| exact Hk].
    apply list_elem_of_fmap. eauto.
Qed.

Lemma sort_index_one_kind (counts : list (cell * nat)) :
  (∀ x y, x ∈ counts -> y ∈ counts -> Is_true (same_kind x.1 y.1)) ->
  sort_index counts = Ok (sort_labels cell_compare counts).
Proof.
  destruct counts as [| x r]; intros Hk; [reflexivity |].
  unfold sort_index.
  replace (forallb _ r) with true; [reflexivity |].
  symmetry. apply forallb_forall. intros y Hy.
  apply Is_true_true, Hk; [now left |]. right. now apply list_elem_of_In.
Qed.

(** What tab 3 shows for ratings of one kind (lines 178-204). *)
Lemma ratings_view_one_kind (df : DataFrame) (sc : string) (col : list cell) :
  column df sc = Ok col ->
  one_kind (filter (fun c => Is_true (notna c)) col) ->
  ∃ counts,
    counts_of_values (filter (fun c => Is_true (notna c)) col) counts
    ∧ StronglySorted (label_lt cell_compare) counts
    ∧ ratings_view df (Some sc)
      = Ok (match counts with
            | [] => NoData
            | first :: rest =>
                Shown {| rating_counts := first :: rest;
                         most_common_rating :=
                           (argmax_from Nat.ltb first rest).1 |}
            end).
Proof.
  intros Hc Hkind. unfold ratings_view. rewrite Hc, bind_Ok.
  set (ratings := filter (fun c => Is_true (notna c)) col) in *.
  pose proof (value_counts_spec ratings) as Hvc.
  pose proof (sort_labels_perm cell_compare (value_counts ratings)) as Hp.
  exists (sort_labels cell_compare (value_counts ratings)).
  split; [| split].
  - eapply counts_of_values_perm; [symmetry; exact Hp | exact Hvc].
  - apply (sort_labels_strict cell_compare cell_compare_antisym
             cell_compare_eq_l cell_compare_lt_trans).
    now destruct Hvc.
  - assert (Hsi : sort_index (value_counts ratings)
                  = Ok (sort_labels cell_compare (value_counts ratings))).
    { apply sort_index_one_kind. intros x y Hx Hy.
      destruct Hvc as (_ & Hin & _).
      apply Hkind; [apply (Hin x Hx) | apply (Hin y Hy)]. }
    destruct ratings as [| c l] eqn:Hr.
    + reflexivity.
    + rewrite Hsi, bind_Ok.
      destruct (sort_labels cell_compare (value_counts (c :: l)))
        as [| first rest] eqn:Hs; [| reflexivity].
      exfalso. destruct Hvc as (_ & _ & Hall).
      destruct (Hall c) as (x & Hx & _); [now left |].
      rewrite <- Hp in Hx. inversion Hx.
Qed.

Lemma argmax_count {K} (first : K * nat) (rest : list (K * nat)) :
  ∃ pre post,
    first :: rest = pre ++ argmax_from Nat.ltb first rest :: post
    ∧ Forall (fun x => (x.2 < (argmax_from Nat.ltb first rest).2)%nat) pre
    ∧ Forall (fun x => (x.2 <= (argmax_from Nat.ltb first rest).2)%nat) post.
Proof.
  destruct (argmax_from_first Nat.ltb Peano.le Nat.le_trans Nat.le_ge_cases
              Nat.ltb_ge first rest) as (pre & post & He & Hpre & Hpost).
  exists pre, post. split; [exact He |]. split; [| exact Hpost].
  eapply Forall_impl; [exact Hpre |]. simpl. intros x Hx. lia.
Qed.

(** C7. With the ratings column found (and its values of one kind), tab 3
    leaves the missing ratings out, counts the occurrences of each
    distinct rating and lists the (rating, count) pairs in strictly
    ascending order of the rating, with an entry for every rating that
    occurs; the most common rating is an entry whose count no other
    exceeds; for the ratings 5, 5, 3, 4, 5 the counts are 3:1, 4:1, 5:3 and
    the most common rating is 5. *)
Theorem ratings_view_counts_sorted_by_rating :
  (∀ df sc col,
     column df sc = Ok col ->
     one_kind (filter (fun c => Is_true (notna c)) col) ->
     ∃ v, ratings_view df (Some sc) = Ok v
       ∧ match v with
         | Shown s =>
             counts_of_values (filter (fun c => Is_true (notna c)) col)
               (rating_counts s)
             ∧ StronglySorted (label_lt cell_compare) (rating_counts s)
             ∧ ∃ n, (most_common_rating s, n) ∈ rating_counts s
                 ∧ ∀ x, x ∈ rating_counts s -> (x.2 <= n)%nat
         | NoData => filter (fun c => Is_true (notna c)) col = []
         | InsufficientColumns => False
         end)
  ∧ ratings_view rated_table
      (Resolver.detect_column (columns rated_table)
         Resolver.satisfaction_candidates)
    = Ok (Shown {| rating_counts := [(Num 3, 1); (Num 4, 1); (Num 5, 3)]%nat;
                   most_common_rating := Num 5 |}).
Proof.
  split; [| vm_compute; reflexivity].
  intros df sc col Hc Hkind.
  destruct (ratings_view_one_kind df sc col Hc Hkind)
    as (counts & Hcounts & Hsorted & ->).
  destruct counts as [| first rest]; eexists; (split; [reflexivity |]); simpl.
  - destruct Hcounts as (_ & _ & Hall).
    destruct (filter _ col) as [| c l]; [reflexivity |].
    destruct (Hall c) as (x & Hx & _); [now left | inversion Hx].
  - split; [exact Hcounts |]. split; [exact Hsorted |].
    destruct (argmax_count first rest) as (pre & post & He & Hpre & Hpost).
    exists (argmax_from Nat.ltb first rest).2. split.
    + rewrite He. apply elem_of_app. right.
      destruct (argmax_from Nat.ltb first rest). now left.
    + intros x Hx. rewrite He in Hx.
      apply elem_of_app in Hx as [Hx | Hx].
      * apply Nat.lt_le_incl. exact (proj1 (Forall_forall _ _) Hpre x Hx).
      * apply elem_of_cons in Hx as [-> | Hx]; [reflexivity |].
        exact (proj1 (Forall_forall _ _) Hpost x Hx).
Qed.

(** ** The tabs are independent of the columns they do not read *)

Lemma category_view_no_sales (df : DataFrame) (category_col : option string) :
  category_view df category_col None = Ok InsufficientColumns.
Proof. now destruct category_col. Qed.

Lemma time_view_no_sales (to_datetime : list cell -> list (option Z))
  (df : DataFrame) (date_col : option string) :
  time_view to_datetime df date_col None = Ok InsufficientColumns.
Proof. now destruct date_col. Qed.

Lemma ratings_view_found (df : DataFrame) (sc : string)
  (v : view ratings_summary) :
  ratings_view df (Some sc) = Ok v -> v ≠ InsufficientColumns.
Proof.
  unfold ratings_view. destruct (column df sc) as [col | e]; [| discriminate].
  rewrite bind_Ok.
  destruct (filter _ col) as [| c l]; [intros [= <-]; discriminate |].
  destruct (sort_index _) as [[| first rest] | e]; try discriminate.
  rewrite bind_Ok. intros [= <-]. discriminate.
Qed.

Lemma detect_column_none (cols cands : list string) :
  (∀ a, a ∈ cands -> ¬ Resolver.matches cols a) ->
  Resolver.detect_column cols cands = None.
Proof.
  intros Hno. apply first_match_none, Forall_forall. intros a Ha.
  destruct (Resolver.cols_lower cols !! lower a) as [c |] eqn:Hl;
    [| reflexivity].
  destruct (Hno a Ha). apply lookup_matches. eauto.
Qed.

(** C8. When no column matches a candidate of the sales list, tab 1 and
    tab 2 both show the missing-columns error and tab 3 is what the
    ratings column alone gives: the run ends with tab 3's outcome, which
    is not the missing-columns error when the ratings column was found. *)
Theorem missing_sales_column_scoped :
  (∀ (to_datetime : list cell -> list (option Z)) df,
     (∀ a, a ∈ Resolver.sales_candidates ->
           ¬ Resolver.matches (columns df) a) ->
     run to_datetime df
     = (t3 ← ratings_view df
               (Resolver.detect_column (columns df)
                  Resolver.satisfaction_candidates);
        Ok {| tab1 := InsufficientColumns;
              tab2 := InsufficientColumns;
              tab3 := t3 |})
     ∧ ∀ sc t3,
         Resolver.detect_column (columns df) Resolver.satisfaction_candidates
         = Some sc ->
         ratings_view df (Some sc) = Ok t3 ->
         run to_datetime df
         = Ok {| tab1 := InsufficientColumns;
                 tab2 := InsufficientColumns;
                 tab3 := t3 |}
         ∧ t3 ≠ InsufficientColumns)
  ∧ run to_datetime_iso rated_table
    = Ok {| tab1 := InsufficientColumns;
            tab2 := InsufficientColumns;
            tab3 := Shown {| rating_counts :=
                               [(Num 3, 1); (Num 4, 1); (Num 5, 3)]%nat;
                             most_common_rating := Num 5 |} |}.
Proof.
  split; [| vm_compute; reflexivity].
  intros to_datetime df Hno.
  pose proof (detect_column_none _ _ Hno) as Hsales.
  assert (Hrun : run to_datetime df
                 = (t3 ← ratings_view df
                           (Resolver.detect_column (columns df)
                              Resolver.satisfaction_candidates);
                    Ok {| tab1 := InsufficientColumns;
                          tab2 := InsufficientColumns;
                          tab3 := t3 |})).
  { unfold run. rewrite Hsales.
    now rewrite category_view_no_sales, bind_Ok, time_view_no_sales, bind_Ok. }
  split; [exact Hrun |].
  intros sc t3 Hsat Hv. rewrite Hrun, Hsat, Hv, bind_Ok.
  split; [reflexivity | exact (ratings_view_found df sc t3 Hv)].
Qed.

(** C9 (as the code has it). A tab whose columns were found shows the
    no-data notice, which is not the missing-columns error, when it has no
    row to use: tab 1 when no row carries a category (the grouped result
    is empty), tab 2 when no date could be parsed, tab 3 when every rating
    is missing. *)
Theorem no_usable_rows_signal_no_data :
  (∀ df cc sc cats sales,
     column df cc = Ok cats -> column df sc = Ok sales ->
     keyed_rows cats sales = [] ->
     category_view df (Some cc) (Some sc) = Ok NoData)
  ∧ (∀ (to_datetime : list cell -> list (option Z)) df dc sc dates sales,
       column df dc = Ok dates -> column df sc = Ok sales ->
       dated_rows (to_datetime dates) sales = [] ->
       time_view to_datetime df (Some dc) (Some sc) = Ok NoData)
  ∧ (∀ df sc col,
       column df sc = Ok col ->
       filter (fun c => Is_true (notna c)) col = [] ->
       ratings_view df (Some sc) = Ok NoData)
  ∧ @NoData category_summary ≠ InsufficientColumns
  ∧ @NoData time_summary ≠ InsufficientColumns
  ∧ @NoData ratings_summary ≠ InsufficientColumns
  ∧ run to_datetime_iso blank_table
    = Ok {| tab1 := NoData; tab2 := NoData; tab3 := NoData |}.
Proof.
  split; [| split; [| split;
    [| repeat split; try discriminate; vm_compute; reflexivity]]].
  - intros df cc sc cats sales Hc Hs Hk.
    unfold category_view. rewrite Hc, bind_Ok, Hs, bind_Ok, Hk. reflexivity.
  - intros to_datetime df dc sc dates sales Hc Hs Hk.
    unfold time_view. rewrite Hc, bind_Ok, Hs, bind_Ok, Hk. reflexivity.
  - intros df sc col Hc Hk.
    unfold ratings_view. rewrite Hc, bind_Ok, Hk. reflexivity.
Qed.

(** * The theorems at concrete tables *)

Lemma detect_column_first_match_witness :
  "CATEGORY" ∈ ["Order ID"; "CATEGORY"]
  ∧ ∃ c, Resolver.detect_column ["Order ID"; "CATEGORY"]
           Resolver.category_candidates = Some c
         ∧ c ∈ ["Order ID"; "CATEGORY"] ∧ lower c = "category".
Proof.
  split; [repeat constructor |].
  apply (proj1 (proj2 detect_column_first_match) ["Order ID"; "CATEGORY"]).
  repeat constructor.
Defined.


Lemma rated_one_kind :
  one_kind (filter (fun c => Is_true (notna c))
              [Num 5; Num 5; Num 3; Num 4; Num 5]).
Proof.
  intros a b Ha Hb. vm_compute in Ha, Hb.
  repeat (apply elem_of_cons in Ha as [-> | Ha]);
    try (now inversion Ha);
    repeat (apply elem_of_cons in Hb as [-> | Hb]);
    try (now inversion Hb); exact I.
Defined.

Lemma ratings_view_counts_sorted_by_rating_witness :
  column rated_table "Service Satisfaction Rating"
  = Ok [Num 5; Num 5; Num 3; Num 4; Num 5]
  ∧ ∃ v, ratings_view rated_table (Some "Service Satisfaction Rating") = Ok v
      ∧ v ≠ InsufficientColumns.
Proof.
  split; [reflexivity |].
  destruct (proj1 ratings_view_counts_sorted_by_rating rated_table
              "Service Satisfaction Rating"
              [Num 5; Num 5; Num 3; Num 4; Num 5])
    as (v & Hv & Hshape); [reflexivity | exact rated_one_kind |].
  exists v. split; [exact Hv |]. intros ->. exact Hshape.
Defined.

Lemma tied_one_kind :
  one_kind (filter (fun c => Is_true (notna c))
              [Num 4; Num 2; NaN; Num 4; Num 2; Num 3]).
Proof.
  intros a b Ha Hb. vm_compute in Ha, Hb.
  repeat (apply elem_of_cons in Ha as [-> | Ha]);
    try (now inversion Ha);
    repeat (apply elem_of_cons in Hb as [-> | Hb]);
    try (now inversion Hb); exact I.
Defined.

Lemma rated_table_no_sales (a : string) :
  a ∈ Resolver.sales_candidates ->
  ¬ Resolver.matches (columns rated_table) a.
Proof.
  intros Ha Hm. apply lookup_matches in Hm.
  unfold Resolver.sales_candidates in Ha.
  repeat (apply elem_of_cons in Ha as [-> | Ha]);
    try (now inversion Ha); vm_compute in Hm; destruct Hm; discriminate.
Defined.

Lemma missing_sales_column_scoped_witness :
  (∀ a, a ∈ Resolver.sales_candidates ->
        ¬ Resolver.matches (columns rated_table) a)
  ∧ run to_datetime_iso rated_table
    = (t3 ← ratings_view rated_table
              (Resolver.detect_column (columns rated_table)
                 Resolver.satisfaction_candidates);
       Ok {| tab1 := InsufficientColumns;
             tab2 := InsufficientColumns;
             tab3 := t3 |}).
Proof.
  split; [exact rated_table_no_sales |].
  apply (proj1 missing_sales_column_scoped to_datetime_iso rated_table
           rated_table_no_sales).
Defined.

Lemma no_usable_rows_signal_no_data_witness :
  column blank_table "Category" = Ok [NaN]
  ∧ column blank_table "Sales" = Ok [Num 5]
  ∧ keyed_rows [NaN] [Num 5] = []
  ∧ category_view blank_table (Some "Category") (Some "Sales") = Ok NoData.
Proof.
  split; [reflexivity |]. split; [reflexivity |]. split; [reflexivity |].
  apply (proj1 no_usable_rows_signal_no_data blank_table "Category" "Sales"
           [NaN] [Num 5]); reflexivity.
Defined.

(** * Further properties of the script *)

(** ** Column detection: which column, and that it can be read *)

Lemma cols_lower_last (cols : list string) (k c : string) :
  Resolver.cols_lower cols !! k = Some c ->
  ∃ pre post, cols = pre ++ c :: post ∧ lower c = k
              ∧ ∀ x, x ∈ post -> lower x ≠ k.
Proof.
  induction cols as [| x cols IH] using rev_ind; intros Hk.
  - discriminate Hk.
  - rewrite cols_lower_snoc in Hk.
    destruct (decide (lower x = k)) as [He | Hne].
    + rewrite He, lookup_insert_eq in Hk. injection Hk as <-.
      exists cols, []. split; [reflexivity |]. split; [exact He |].
      intros y Hy. inversion Hy.
    + rewrite lookup_insert_ne in Hk by assumption.
      destruct (IH Hk) as (pre & post & -> & Hl & Hpost).
      exists pre, (post ++ [x]). split; [now rewrite <- app_assoc |].
      split; [exact Hl |]. intros y Hy.
      apply elem_of_app in Hy as [Hy | Hy]; [now apply Hpost |].
      now apply list_elem_of_singleton in Hy as ->.
Qed.

(** X1. Among columns whose names differ by letter case only, the one
    [detect_column] returns is the last of the table: no later column has
    the same lowered name. *)
Theorem detect_column_last_spelling :
  (∀ cols cands c,
     Resolver.detect_column cols cands = Some c ->
     ∃ pre post, cols = pre ++ c :: post
                 ∧ ∀ x, x ∈ post -> lower x ≠ lower c)
  ∧ Resolver.detect_column ["sales"; "Qty"; "SALES"]
      Resolver.sales_candidates = Some "SALES".
Proof.
  split; [| vm_compute; reflexivity].
  intros cols cands c Hd.
  apply first_match_some in Hd as (_ & a & _ & _ & _ & Ha).
  destruct (cols_lower_last cols _ c Ha) as (pre & post & -> & Hl & Hpost).
  exists pre, post. split; [reflexivity |]. now rewrite Hl.
Qed.

Lemma detect_column_last_spelling_witness :
  Resolver.detect_column ["sales"; "Qty"; "SALES"] Resolver.sales_candidates
  = Some "SALES"
  ∧ ∃ pre post, ["sales"; "Qty"; "SALES"] = pre ++ "SALES" :: post
                ∧ ∀ x, x ∈ post -> lower x ≠ lower "SALES".
Proof.
  split; [vm_compute; reflexivity |].
  apply (proj1 detect_column_last_spelling _ Resolver.sales_candidates).
  vm_compute. reflexivity.
Defined.

Lemma first_match_lowered (m : gmap string string) (cands cands' : list string) :
  map lower cands = map lower cands' ->
  Resolver.first_match m cands = Resolver.first_match m cands'.
Proof.
  revert cands'. induction cands as [| a cands IH]; intros [| b cands'] He;
    try discriminate; [reflexivity |].
  injection He as Hab Hrest. simpl. rewrite Hab.
  destruct (m !! lower b); [reflexivity | now apply IH].
Qed.

(** X2. The letter case of the candidate names does not matter: two
    candidate lists with the same lowered names detect the same column. *)
Theorem detect_column_candidate_case :
  ∀ cols cands cands',
    map lower cands = map lower cands' ->
    Resolver.detect_column cols cands = Resolver.detect_column cols cands'.
Proof.
  intros cols cands cands' He. unfold Resolver.detect_column.
  now apply first_match_lowered.
Qed.

Lemma detect_column_candidate_case_witness :
  Resolver.detect_column ["Order ID"; "Total sales"] Resolver.sales_candidates
  = Resolver.detect_column ["Order ID"; "Total sales"]
      ["$ SALES"; "sales ($)"; "SALES"; "TOTAL SALES"].
Proof.
  apply detect_column_candidate_case. vm_compute. reflexivity.
Defined.

Lemma index_of_elem (name : string) (cols : list string) :
  name ∈ cols <-> ∃ i, index_of name cols = Some i.
Proof.
  induction cols as [| c cols IH]; simpl.
  - split; [inversion 1 | intros [i Hi]; discriminate].
  - destruct (String.eqb_spec c name) as [-> | Hne].
    + split; [eauto | intros _; now left].
    + rewrite elem_of_cons, IH. split.
      * intros [-> | [i ->]]; [congruence | simpl; eauto].
      * intros [i Hi]. right.
        destruct (index_of name cols) as [j |]; [eauto | discriminate].
Qed.

Lemma column_elem (df : DataFrame) (name : string) :
  name ∈ columns df ->
  ∃ cells, column df name = Ok cells ∧ length cells = length (rows df).
Proof.
  intros [i Hi]%index_of_elem. unfold column. rewrite Hi.
  eexists. split; [reflexivity | apply length_map].
Qed.

Lemma detect_column_elem (cols cands : list string) (c : string) :
  Resolver.detect_column cols cands = Some c -> c ∈ cols.
Proof.
  intros Hd. apply first_match_some in Hd as (_ & a & _ & _ & _ & Ha).
  now apply cols_lower_sound in Ha.
Qed.

(** X3. A column that [detect_column] found can be read: [df[col]] does
    not raise [KeyError] and has one cell per row; a label that is not a
    column of the table raises [KeyError]. *)
Theorem detected_column_is_readable :
  (∀ df cands c,
     Resolver.detect_column (columns df) cands = Some c ->
     ∃ cells, column df c = Ok cells ∧ length cells = length (rows df))
  ∧ (∀ df name, name ∉ columns df -> column df name = Raise KeyError).
Proof.
  split.
  - intros df cands c Hd. apply column_elem.
    exact (detect_column_elem _ _ _ Hd).
  - intros df name Hn. unfold column.
    destruct (index_of name (columns df)) as [i |] eqn:Hi; [| reflexivity].
    destruct Hn. apply index_of_elem. eauto.
Qed.

Lemma detected_column_is_readable_witness :
  Resolver.detect_column (columns juice_table) Resolver.sales_candidates
  = Some "Sales"
  ∧ ∃ cells, column juice_table "Sales" = Ok cells
             ∧ length cells = length (rows juice_table).
Proof.
  split; [vm_compute; reflexivity |].
  apply (proj1 detected_column_is_readable juice_table
           Resolver.sales_candidates).
  vm_compute. reflexivity.
Defined.

(** ** Which exceptions a tab can end in *)

Lemma groupby_sum_cases {K} (cmp : K -> K -> comparison)
  (l : list (K * cell)) :
  groupby_sum cmp l = Raise TypeError ∨ ∃ sums, groupby_sum cmp l = Ok sums.
Proof.
  unfold groupby_sum.
  destruct (mapM_result_cases
              (fun g : K * list cell => t ← group_sum g.2; Ok (g.1, t))
              (sort_labels cmp (group_rows cmp l))) as [-> | (sums & -> & _)];
    [| now left | eauto].
  intros a _. destruct (group_sum_cases a.2) as [-> | [c ->]]; eauto.
Qed.

Lemma numeric_totals_cases {K} (sums : list (K * cell)) :
  numeric_totals sums = Raise TypeError
  ∨ ∃ totals, numeric_totals sums = Ok totals.
Proof.
  unfold numeric_totals.
  destruct (mapM_result_cases
              (fun g : K * cell => q ← as_number g.2; Ok (g.1, q))
              sums) as [-> | (totals & -> & _)]; [| now left | eauto].
  intros [k c] _. destruct c; simpl; eauto.
Qed.

Lemma category_view_cases (df : DataFrame) (cc sc : string) :
  cc ∈ columns df -> sc ∈ columns df ->
  category_view df (Some cc) (Some sc) = Raise TypeError
  ∨ ∃ v, category_view df (Some cc) (Some sc) = Ok v
         ∧ v ≠ InsufficientColumns.
Proof.
  intros Hc Hs.
  destruct (column_elem df cc Hc) as (cats & Hcats & _).
  destruct (column_elem df sc Hs) as (sales & Hsales & _).
  unfold category_view. rewrite Hcats, bind_Ok, Hsales, bind_Ok.
  destruct (groupby_sum_cases cell_compare (keyed_rows cats sales))
    as [-> | [sums ->]]; [now left |].
  rewrite bind_Ok.
  destruct (numeric_totals_cases sums) as [-> | [totals ->]]; [now left |].
  rewrite bind_Ok. right.
  destruct (sort_values_desc totals) as [| first rest].
  - exists NoData. split; [reflexivity | discriminate].
  - cbv zeta. rewrite share_pct_ok, bind_Ok.
    eexists. split; [reflexivity | discriminate].
Qed.

Lemma time_view_cases (to_datetime : list cell -> list (option Z))
  (df : DataFrame) (dc sc : string) :
  dc ∈ columns df -> sc ∈ columns df ->
  time_view to_datetime df (Some dc) (Some sc) = Raise TypeError
  ∨ ∃ v, time_view to_datetime df (Some dc) (Some sc) = Ok v
         ∧ v ≠ InsufficientColumns.
Proof.
  intros Hc Hs.
  destruct (column_elem df dc Hc) as (dates & Hdates & _).
  destruct (column_elem df sc Hs) as (sales & Hsales & _).
  unfold time_view. rewrite Hdates, bind_Ok, Hsales, bind_Ok.
  destruct (groupby_sum_cases Z.compare (dated_rows (to_datetime dates) sales))
    as [-> | [sums ->]]; [now left |].
  rewrite bind_Ok.
  destruct (numeric_totals_cases (sort_labels Z.compare sums))
    as [-> | [totals ->]]; [now left |].
  rewrite bind_Ok. right.
  destruct totals as [| first rest]; eexists;
    (split; [reflexivity | discriminate]).
Qed.

Lemma sort_index_cases (l : list (cell * nat)) :
  sort_index l = Raise TypeError
  ∨ sort_index l = Ok (sort_labels cell_compare l).
Proof.
  destruct l as [| x r]; [now right |]. unfold sort_index.
  destruct (forallb _ r); auto.
Qed.

Lemma ratings_view_cases (df : DataFrame) (sc : string) :
  sc ∈ columns df ->
  ratings_view df (Some sc) = Raise TypeError
  ∨ ∃ v, ratings_view df (Some sc) = Ok v ∧ v ≠ InsufficientColumns.
Proof.
  intros Hs. destruct (column_elem df sc Hs) as (col & Hcol & _).
  unfold ratings_view. rewrite Hcol, bind_Ok.
  destruct (filter _ col) as [| c l] eqn:Hf.
  - right. exists NoData. split; [reflexivity | discriminate].
  - destruct (sort_index_cases (value_counts (c :: l))) as [-> | ->];
      [now left |].
    rewrite bind_Ok. right.
    destruct (sort_labels cell_compare (value_counts (c :: l)))
      as [| first rest] eqn:Hsl.
    + exfalso. destruct (value_counts_spec (c :: l)) as (_ & _ & Hall).
      destruct (Hall c) as (x & Hx & _); [now left |].
      rewrite <- (sort_labels_perm cell_compare) in Hx.
      rewrite Hsl in Hx. inversion Hx.
    + eexists. split; [reflexivity | discriminate].
Qed.

(** ** Warnings and the missing-columns error *)

Lemma warnings_elem (df : DataFrame) :
  (Category ∈ warnings df
   <-> Resolver.detect_column (columns df) Resolver.category_candidates = None)
  ∧ (SalesAmount ∈ warnings df
     <-> Resolver.detect_column (columns df) Resolver.sales_candidates = None)
  ∧ (DateOrdered ∈ warnings df
     <-> Resolver.detect_column (columns df) Resolver.date_candidates = None)
  ∧ (SatisfactionRating ∈ warnings df
     <-> Resolver.detect_column (columns df)
           Resolver.satisfaction_candidates = None).
Proof.
  unfold warnings.
  destruct (Resolver.detect_column _ Resolver.category_candidates),
    (Resolver.detect_column _ Resolver.sales_candidates),
    (Resolver.detect_column _ Resolver.date_candidates),
    (Resolver.detect_column _ Resolver.satisfaction_candidates); simpl;
    repeat split; intros H; try reflexivity; try discriminate;
    repeat (apply elem_of_cons in H as [H | H]; try discriminate);
    try (now inversion H); repeat constructor.
Qed.

Lemma category_view_error_iff (df : DataFrame) (cc sc : option string)
  (v : view category_summary) :
  (∀ c, cc = Some c -> c ∈ columns df) ->
  (∀ c, sc = Some c -> c ∈ columns df) ->
  category_view df cc sc = Ok v ->
  v = InsufficientColumns <-> cc = None ∨ sc = None.
Proof.
  intros Hc Hs Hv. destruct cc as [c |], sc as [s |];
    try (injection Hv as <-; split; auto).
  destruct (category_view_cases df c s (Hc c eq_refl) (Hs s eq_refl))
    as [He | (v' & He & Hne)]; rewrite He in Hv; [discriminate |].
  injection Hv as <-. split; [contradiction | intros [H | H]; discriminate].
Qed.

Lemma time_view_error_iff (to_datetime : list cell -> list (option Z))
  (df : DataFrame) (dc sc : option string) (v : view time_summary) :
  (∀ c, dc = Some c -> c ∈ columns df) ->
  (∀ c, sc = Some c -> c ∈ columns df) ->
  time_view to_datetime df dc sc = Ok v ->
  v = InsufficientColumns <-> dc = None ∨ sc = None.
Proof.
  intros Hc Hs Hv. destruct dc as [c |], sc as [s |];
    try (injection Hv as <-; split; auto).
  destruct (time_view_cases to_datetime df c s (Hc c eq_refl) (Hs s eq_refl))
    as [He | (v' & He & Hne)]; rewrite He in Hv; [discriminate |].
  injection Hv as <-. split; [contradiction | intros [H | H]; discriminate].
Qed.

Lemma ratings_view_error_iff (df : DataFrame) (rc : option string)
  (v : view ratings_summary) :
  ratings_view df rc = Ok v -> v = InsufficientColumns <-> rc = None.
Proof.
  intros Hv. destruct rc as [c |].
  - split; [| discriminate]. intros ->.
    now destruct (ratings_view_found df c _ Hv).
  - injection Hv as <-. split; auto.
Qed.

Lemma run_Ok_tabs (to_datetime : list cell -> list (option Z))
  (df : DataFrame) (d : dashboard) :
  run to_datetime df = Ok d ->
  category_view df
    (Resolver.detect_column (columns df) Resolver.category_candidates)
    (Resolver.detect_column (columns df) Resolver.sales_candidates)
  = Ok (tab1 d)
  ∧ time_view to_datetime df
      (Resolver.detect_column (columns df) Resolver.date_candidates)
      (Resolver.detect_column (columns df) Resolver.sales_candidates)
    = Ok (tab2 d)
  ∧ ratings_view df
      (Resolver.detect_column (columns df) Resolver.satisfaction_candidates)
    = Ok (tab3 d).
Proof.
  unfold run.
  destruct (category_view df _ _) as [v1 |]; [| discriminate].
  rewrite bind_Ok.
  destruct (time_view to_datetime df _ _) as [v2 |]; [| discriminate].
  rewrite bind_Ok.
  destruct (ratings_view df _) as [v3 |]; [| discriminate].
  rewrite bind_Ok. intros [= <-]. auto.
Qed.

(** X5. On a run that completes, a tab shows the missing-columns error
    exactly when a warning was shown for one of the columns it reads:
    tab 1 for the category or the sales column, tab 2 for the date or the
    sales column, tab 3 for the ratings column. *)
Theorem tab_error_iff_warning :
  ∀ (to_datetime : list cell -> list (option Z)) df d,
    run to_datetime df = Ok d ->
    (tab1 d = InsufficientColumns
     <-> Category ∈ warnings df ∨ SalesAmount ∈ warnings df)
    ∧ (tab2 d = InsufficientColumns
       <-> DateOrdered ∈ warnings df ∨ SalesAmount ∈ warnings df)
    ∧ (tab3 d = InsufficientColumns <-> SatisfactionRating ∈ warnings df).
Proof.
  intros to_datetime df d Hrun.
  destruct (run_Ok_tabs to_datetime df d Hrun) as (H1 & H2 & H3).
  destruct (warnings_elem df) as (Wc & Ws & Wd & Wr).
  rewrite Wc, Ws, Wd, Wr.
  split; [| split].
  - apply (category_view_error_iff df _ _ _); [| | exact H1];
      intros c Hc; exact (detect_column_elem _ _ _ Hc).
  - apply (time_view_error_iff to_datetime df _ _ _); [| | exact H2];
      intros c Hc; exact (detect_column_elem _ _ _ Hc).
  - exact (ratings_view_error_iff df _ _ H3).
Qed.

Lemma tab_error_iff_warning_witness :
  run to_datetime_iso rated_table
  = Ok {| tab1 := InsufficientColumns;
          tab2 := InsufficientColumns;
          tab3 := Shown {| rating_counts :=
                             [(Num 3, 1); (Num 4, 1); (Num 5, 3)]%nat;
                           most_common_rating := Num 5 |} |}
  ∧ (@InsufficientColumns category_summary = InsufficientColumns
     <-> Category ∈ warnings rated_table ∨ SalesAmount ∈ warnings rated_table).
Proof.
  split; [vm_compute; reflexivity |].
  apply (proj1 (tab_error_iff_warning to_datetime_iso rated_table
                  {| tab1 := InsufficientColumns;
                     tab2 := InsufficientColumns;
                     tab3 := Shown {| rating_counts :=
                                        [(Num 3, 1); (Num 4, 1);
                                         (Num 5, 3)]%nat;
                                      most_common_rating := Num 5 |} |}
                  ltac:(vm_compute; reflexivity))).
Defined.

(** ** Grouping loses nothing *)



Section ConservationFacts.
Context {K : Type} (cmp : K -> K -> comparison).
Hypothesis cmp_refl : ∀ x, cmp x x = Eq.
Hypothesis cmp_antisym : ∀ x y, cmp y x = CompOpp (cmp x y).
Hypothesis cmp_eq_l : ∀ x y z, cmp x y = Eq -> cmp x z = cmp y z.




End ConservationFacts.



(** ** Counting loses nothing *)

Lemma count_of_cons (k c : cell) (l : list cell) :
  count_of k (c :: l)
  = ((if keq cell_compare k c then 1 else 0) + count_of k l)%nat.
Proof.
  unfold count_of. rewrite filter_cons.
  destruct (decide (Is_true (keq cell_compare k c))) as [Hk | Hk].
  - now apply Is_true_true in Hk as ->.
  - now apply Is_true_false in Hk as ->.
Qed.

Lemma one_label_count (ks : list cell) (x : cell) :
  distinct_labels cell_compare ks ->
  (∃ k, k ∈ ks ∧ Is_true (keq cell_compare k x)) ->
  list_sum (map (fun k => if keq cell_compare k x then 1 else 0)%nat ks)
  = 1%nat.
Proof.
  induction ks as [| k0 ks IH]; intros [Hnd Heq] (k & Hk & Hkx);
    [inversion Hk |].
  apply NoDup_cons in Hnd as [Hnin Hnd]. simpl.
  destruct (keq cell_compare k0 x) eqn:H0.
  - f_equal. clear IH Hk Hkx k.
    assert (Hzero : ∀ y, y ∈ ks -> keq cell_compare y x = false).
    { intros y Hy. destruct (keq cell_compare y x) eqn:Hy'; [| reflexivity].
      exfalso. apply Hnin.
      rewrite (Heq k0 y); [exact Hy | now left | now right |].
      rewrite (keq_trans_l cell_compare cell_compare_eq_l k0 x)
        by now rewrite H0.
      rewrite (keq_sym cell_compare cell_compare_antisym), Hy'. exact I. }
    clear Hnd Heq Hnin. induction ks as [| y ks IHk]; [reflexivity |].
    simpl. rewrite (Hzero y) by now left.
    apply IHk. intros z Hz. apply Hzero. now right.
  - apply IH.
    + split; [exact Hnd |]. intros u v Hu Hv. apply Heq; now right.
    + apply elem_of_cons in Hk as [-> | Hk]; [| eauto].
      rewrite H0 in Hkx. destruct Hkx.
Qed.

Lemma counts_total (ks l : list cell) :
  distinct_labels cell_compare ks ->
  (∀ c, c ∈ l -> ∃ k, k ∈ ks ∧ Is_true (keq cell_compare k c)) ->
  list_sum (map (fun k => count_of k l) ks) = length l.
Proof.
  intros Hd. induction l as [| c l IH]; intros Hcov.
  - clear. induction ks as [| k ks IHk]; [reflexivity | exact IHk].
  - assert (Hsplit :
      list_sum (map (fun k => count_of k (c :: l)) ks)
      = (list_sum (map (fun k => if keq cell_compare k c then 1 else 0) ks)
         + list_sum (map (fun k => count_of k l) ks))%nat).
    { clear. induction ks as [| k ks IHk]; [reflexivity |].
      simpl map. simpl list_sum. rewrite IHk, count_of_cons. lia. }
    rewrite Hsplit, IH, one_label_count; [reflexivity | exact Hd | |].
    + apply Hcov. now left.
    + intros x Hx. apply Hcov. now right.
Qed.

Lemma count_of_self (k : cell) (l : list cell) :
  k ∈ l -> (1 <= count_of k l)%nat.
Proof.
  induction l as [| c l IH]; intros Hk; [inversion Hk |].
  rewrite count_of_cons. apply elem_of_cons in Hk as [<- | Hk].
  - pose proof (keq_refl cell_compare cell_compare_refl k) as Hr.
    apply Is_true_true in Hr as ->. lia.
  - specialize (IH Hk). lia.
Qed.

(** X8. Counting loses no rating: the counts of tab 3 add up to the number
    of ratings that are not missing, and every listed rating has a count
    of at least one. *)
Theorem rating_counts_conserved :
  ∀ df sc col,
    column df sc = Ok col ->
    one_kind (filter (fun c => Is_true (notna c)) col) ->
    ∃ v, ratings_view df (Some sc) = Ok v
      ∧ ∀ s, v = Shown s ->
          list_sum (map snd (rating_counts s))
          = length (filter (fun c => Is_true (notna c)) col)
          ∧ ∀ x, x ∈ rating_counts s -> (1 <= x.2)%nat.
Proof.
  intros df sc col Hc Hkind.
  destruct (ratings_view_one_kind df sc col Hc Hkind)
    as (counts & (Hd & Hcnt & Hcov) & _ & ->).
  eexists. split; [reflexivity |]. intros s Hv.
  destruct counts as [| first rest]; [discriminate |].
  injection Hv as <-. simpl rating_counts.
  set (counts := first :: rest) in *. split.
  - rewrite <- (counts_total (map fst counts) _ Hd).
    + rewrite map_map. f_equal. apply map_ext_in. intros x Hx.
      apply (Hcnt x). now apply list_elem_of_In.
    + intros c Hin. destruct (Hcov c Hin) as (x & Hx & Hk).
      exists x.1. split; [apply list_elem_of_fmap; eauto | exact Hk].
  - intros x Hx. destruct (Hcnt x Hx) as [Hin ->].
    now apply count_of_self.
Qed.

Lemma rating_counts_conserved_witness :
  column rated_table "Service Satisfaction Rating"
  = Ok [Num 5; Num 5; Num 3; Num 4; Num 5]
  ∧ ∃ v, ratings_view rated_table (Some "Service Satisfaction Rating") = Ok v
      ∧ ∀ s, v = Shown s ->
          list_sum (map snd (rating_counts s))
          = length (filter (fun c => Is_true (notna c))
                      [Num 5; Num 5; Num 3; Num 4; Num 5])
          ∧ ∀ x, x ∈ rating_counts s -> (1 <= x.2)%nat.
Proof.
  split; [reflexivity |].
  apply (rating_counts_conserved rated_table "Service Satisfaction Rating");
    [reflexivity | exact rated_one_kind].
Defined.

(** ** Where the top entry sits *)

Lemma argmax_from_head {K V} (ltb : V -> V -> bool) (best : K * V)
  (l : list (K * V)) :
  Forall (fun x => ltb best.2 x.2 = false) l -> argmax_from ltb best l = best.
Proof.
  induction l as [| x l IH]; intros Hl; [reflexivity |].
  apply Forall_cons in Hl as [Hx Hl]. simpl. rewrite Hx. now apply IH.
Qed.

(** ** Ratings of two kinds *)

Lemma keq_same_kind (a b : cell) :
  Is_true (keq cell_compare a b) -> Is_true (same_kind a b).
Proof. destruct a, b; simpl; auto. Qed.

Lemma same_kind_refl (a : cell) : same_kind a a = true.
Proof. now destruct a. Qed.

(** X12. A ratings column that holds both a number and a text makes tab 3
    raise [TypeError]: [sort_index()] cannot order the two. *)
Theorem mixed_ratings_raise :
  ∀ df sc col q t,
    column df sc = Ok col -> Num q ∈ col -> Str t ∈ col ->
    ratings_view df (Some sc) = Raise TypeError.
Proof.
  intros df sc col q t Hc Hq Ht.
  unfold ratings_view. rewrite Hc, bind_Ok.
  assert (Hq' : Num q ∈ filter (fun c => Is_true (notna c)) col)
    by (apply list_elem_of_filter; now split).
  assert (Ht' : Str t ∈ filter (fun c => Is_true (notna c)) col)
    by (apply list_elem_of_filter; now split).
  destruct (filter _ col) as [| c l]; [inversion Hq' |].
  destruct (value_counts_spec (c :: l)) as (_ & _ & Hcov).
  destruct (Hcov _ Hq') as (xn & Hxn & Hkn%keq_same_kind).
  destruct (Hcov _ Ht') as (xs & Hxs & Hks%keq_same_kind).
  destruct (value_counts (c :: l)) as [| x0 r]; [inversion Hxn |].
  unfold sort_index.
  destruct (forallb _ r) eqn:Hall; [| reflexivity].
  exfalso. rewrite forallb_forall in Hall.
  assert (Hkind : ∀ y, y ∈ x0 :: r -> same_kind x0.1 y.1 = true).
  { intros y Hy. apply elem_of_cons in Hy as [-> | Hy];
      [apply same_kind_refl | apply Hall; now apply list_elem_of_In]. }
  pose proof (Hkind xn Hxn) as H1. pose proof (Hkind xs Hxs) as H2.
  destruct x0.1, xn.1, xs.1; simpl in *; try discriminate; contradiction.
Qed.

Lemma mixed_ratings_raise_witness :
  column (mkDataFrame ["Satisfaction Rating"] [[Num 5]; [Str "good"]])
    "Satisfaction Rating" = Ok [Num 5; Str "good"]
  ∧ ratings_view (mkDataFrame ["Satisfaction Rating"] [[Num 5]; [Str "good"]])
      (Some "Satisfaction Rating") = Raise TypeError.
Proof.
  split; [reflexivity |].
  apply (mixed_ratings_raise _ _ [Num 5; Str "good"] 5%Q "good");
    [reflexivity | repeat constructor | repeat constructor].
Defined.

(** ** The reader chosen for a file name *)

Lemma length_append (s t : string) :
  String.length (String.append s t)
  = (String.length s + String.length t)%nat.
Proof. induction s as [| c s IH]; simpl; [reflexivity | now rewrite IH]. Qed.

Lemma substring_append (s t : string) (m : nat) :
  substring (String.length s) m (String.append s t) = substring 0 m t.
Proof. induction s as [| c s IH]; simpl; [reflexivity | exact IH]. Qed.

Lemma substring_all (t : string) : substring 0 (String.length t) t = t.
Proof. induction t as [| c t IH]; simpl; [reflexivity | now rewrite IH]. Qed.

Lemma substring_split (s : string) (k : nat) :
  (k <= String.length s)%nat ->
  s = String.append (substring 0 k s) (substring k (String.length s - k) s).
Proof.
  revert k. induction s as [| c s IH]; intros [| k] Hk; simpl in *;
    try lia; try reflexivity.
  - now rewrite substring_all.
  - rewrite (IH k ltac:(lia)) at 1. reflexivity.
Qed.

(** The suffix test on a name written as stem followed by an ending of the
    length of the suffix compares the ending with the suffix. *)
Lemma endswith_append (stem ending suffix : string) :
  String.length ending = String.length suffix ->
  endswith (String.append stem ending) suffix = String.eqb ending suffix.
Proof.
  intros Hlen. unfold endswith. rewrite length_append, <- Hlen.
  replace (String.length stem + String.length ending - String.length ending)%nat
    with (String.length stem) by lia.
  rewrite substring_append, substring_all.
  replace (String.length ending <=? _)%nat with true; [reflexivity |].
  symmetry. apply Nat.leb_le. lia.
Qed.

Lemma endswith_stem (s suffix : string) :
  endswith s suffix = true <-> ∃ stem, s = String.append stem suffix.
Proof.
  split.
  - unfold endswith. intros [Hle He]%andb_true_iff.
    apply Nat.leb_le in Hle. apply String.eqb_eq in He.
    set (k := (String.length s - String.length suffix)%nat) in *.
    assert (Hm : String.length suffix = (String.length s - k)%nat) by lia.
    exists (substring 0 k s).
    transitivity (String.append (substring 0 k s)
                    (substring k (String.length s - k) s));
      [apply substring_split; lia |].
    f_equal. rewrite <- Hm. exact He.
  - intros [stem ->]. rewrite endswith_append by reflexivity.
    apply String.eqb_refl.
Qed.

(** X13. The upload goes to the CSV reader exactly when its name ends in
    ".csv", in lower case; every other name, also one ending in ".CSV" or
    ".xlsx", goes to the Excel reader. *)
Theorem reader_chosen_by_suffix :
  (∀ name, choose_reader name = read_csv
           <-> ∃ stem, name = String.append stem ".csv")
  ∧ (∀ stem, choose_reader (String.append stem ".CSV") = read_excel)
  ∧ (∀ stem, choose_reader (String.append stem ".xlsx") = read_excel).
Proof.
  split; [| split].
  - intros name. rewrite <- endswith_stem. unfold choose_reader.
    destruct (endswith name ".csv"); split; congruence.
  - intros stem. unfold choose_reader.
    now rewrite endswith_append by reflexivity.
  - intros stem. unfold choose_reader.
    assert (He : String.append stem ".xlsx"
                 = String.append (String.append stem ".") "xlsx").
    { induction stem as [| c stem IH]; [reflexivity |].
      change (String c (String.append stem ".xlsx")
              = String c (String.append (String.append stem ".") "xlsx")).
      now rewrite IH. }
    rewrite He. now rewrite endswith_append by reflexivity.
Qed.

(** ** The previews *)

(** X14. The two previews show the first and the last min(5, n) rows of a
    table of n rows with its columns unchanged; a table of at most five
    rows is shown whole in both, and from ten rows on the two previews
    share no row: the table is the first preview, the rows between, and
    the second preview. *)
Theorem previews_show_both_ends :
  (∀ df, columns (head df) = columns df ∧ columns (tail df) = columns df
         ∧ length (rows (head df)) = Nat.min 5 (length (rows df))
         ∧ length (rows (tail df)) = Nat.min 5 (length (rows df))
         ∧ (∃ rest, rows df = rows (head df) ++ rest)
         ∧ (∃ front, rows df = front ++ rows (tail df)))
  ∧ (∀ df, (length (rows df) <= 5)%nat -> head df = df ∧ tail df = df)
  ∧ (∀ df, (10 <= length (rows df))%nat ->
       rows df
       = rows (head df)
         ++ take (length (rows df) - 10) (drop 5 (rows df))
         ++ rows (tail df)).
Proof.
  split; [| split].
  - intros df. unfold head, tail. cbn [rows columns].
    split; [reflexivity |]. split; [reflexivity |].
    split; [apply length_take |].
    split; [rewrite length_drop; lia |].
    split.
    + exists (drop 5 (rows df)). now rewrite take_drop.
    + exists (take (length (rows df) - 5) (rows df)). now rewrite take_drop.
  - intros [cols rs] Hn. unfold head, tail. simpl in *. split; f_equal.
    + now apply take_ge.
    + replace (length rs - 5)%nat with 0%nat by lia. reflexivity.
  - intros df Hn. unfold head, tail. cbn [rows columns].
    rewrite <- (take_drop 5 (rows df)) at 1. f_equal.
    rewrite <- (take_drop (length (rows df) - 10) (drop 5 (rows df))) at 1.
    f_equal. rewrite drop_drop. f_equal. lia.
Qed.

Lemma previews_show_both_ends_witness :
  (length (rows juice_table) <= 5)%nat
  ∧ head juice_table = juice_table ∧ tail juice_table = juice_table.
Proof.
  split; [vm_compute; lia |].
  apply (proj1 (proj2 previews_show_both_ends) juice_table).
  vm_compute. lia.
Defined.

(** ** Tab 2 and text in the sales column *)

(** X16. A text in the sales column is not skipped by tab 2 either: when
    a row whose date was parsed holds one, tab 2 does not complete but
    ends in an exception. *)
Theorem text_sales_stop_time_view :
  ∀ (to_datetime : list cell -> list (option Z)) df dc sc dates sales,
    column df dc = Ok dates -> column df sc = Ok sales ->
    (∃ r t, r ∈ dated_rows (to_datetime dates) sales ∧ r.2 = Str t) ->
    ∃ e, time_view to_datetime df (Some dc) (Some sc) = Raise e.
Proof.
  intros to_datetime df dc sc dates sales Hc Hs Htext.
  unfold time_view. rewrite Hc, bind_Ok, Hs, bind_Ok.
  destruct (groupby_sum_text Z.compare Z.compare_refl Z_compare_antisym
              Z_compare_eq_l (dated_rows (to_datetime dates) sales) Htext)
    as [-> | (sums & -> & s & t & Hin & Ht)]; [eauto |].
  rewrite bind_Ok, (numeric_totals_text (sort_labels Z.compare sums)); [eauto |].
  exists s, t. split; [| exact Ht].
  now rewrite (sort_labels_perm Z.compare sums).
Qed.

Lemma text_sales_stop_time_view_witness :
  ∃ e, time_view to_datetime_iso
         (mkDataFrame ["Order Date"; "Sales"]
            [[Str "2024-01-01"; Num 10]; [Str "2024-01-01"; Str "abc"]])
         (Some "Order Date") (Some "Sales") = Raise e.
Proof.
  apply (text_sales_stop_time_view to_datetime_iso _ "Order Date" "Sales"
           [Str "2024-01-01"; Str "2024-01-01"] [Num 10; Str "abc"]);
    [reflexivity | reflexivity |].
  exists (20240101%Z, Str "abc"), "abc".
  split; [vm_compute; repeat constructor | reflexivity].
Defined.


(** * The tabs with their chart calls *)

(** ** The series *)

Lemma insert_desc_perm {K} (x : K * Q) (l : list (K * Q)) :
  insert_desc x l ≡ₚ x :: l.
Proof.
  induction l as [| y r IH]; simpl; [reflexivity |].
  destruct (Qle_bool y.2 x.2); [reflexivity |].
  rewrite IH. apply perm_swap.
Qed.

Lemma sort_desc_perm {K} (l : list (K * Q)) : sort_desc l ≡ₚ l.
Proof.
  induction l as [| x l IH]; simpl; [reflexivity |].
  now rewrite insert_desc_perm, IH.
Qed.

Lemma insert_desc_sorted {K} (x : K * Q) (l : list (K * Q)) :
  StronglySorted by_total_desc l ->
  StronglySorted by_total_desc (insert_desc x l).
Proof.
  induction 1 as [| y r Hs IH Hy]; simpl; [repeat constructor |].
  destruct (Qle_bool y.2 x.2) eqn:Hle.
  - apply Qle_bool_iff in Hle.
    constructor; [now constructor |]. constructor; [exact Hle |].
    eapply Forall_impl; [exact Hy |]. intros z Hz.
    unfold by_total_desc in *. now apply Qle_trans with y.2.
  - constructor; [exact IH |].
    rewrite insert_desc_perm. constructor; [| exact Hy].
    unfold by_total_desc.
    destruct (Qle_total x.2 y.2) as [H | H]; [exact H |].
    apply Qle_bool_iff in H. congruence.
Qed.

Lemma sort_desc_sorted {K} (l : list (K * Q)) :
  StronglySorted by_total_desc (sort_desc l).
Proof.
  induction l as [| x l IH]; simpl; [constructor |].
  now apply insert_desc_sorted.
Qed.

Section SeriesFacts.
Context {K : Type} (cmp : K -> K -> comparison).
Hypothesis cmp_refl : ∀ x, cmp x x = Eq.
Hypothesis cmp_antisym : ∀ x y, cmp y x = CompOpp (cmp x y).
Hypothesis cmp_eq_l : ∀ x y z, cmp x y = Eq -> cmp x z = cmp y z.
Hypothesis cmp_lt_trans :
  ∀ x y z, cmp x y = Lt -> cmp y z = Lt -> cmp x z = Lt.

Lemma series_of_groups_perm {A} (f : list A -> Q) (l : list (K * A))
  (s s' : list (K * Q)) :
  s ≡ₚ s' -> series_of_groups f cmp l s -> series_of_groups f cmp l s'.
Proof.
  intros Hp (Hd & Ht & Hr). split; [| split].
  - apply (distinct_labels_perm cmp (map fst s)); [| exact Hd].
    now apply fmap_Permutation.
  - intros x Hx. apply Ht. now rewrite Hp.
  - intros r Hin. destruct (Hr r Hin) as (x & Hx & Hk).
    exists x. split; [now rewrite <- Hp | exact Hk].
Qed.

(** The grouped sums have one entry per label, in strictly ascending
    label order, holding the machine sum of the label's rows. *)
Lemma group_totals_spec (a : arith) (l : list (K * option Q)) :
  series_of_groups (machine_sum (group_add a)) cmp l (group_totals a cmp l)
  ∧ StronglySorted (label_lt cmp) (group_totals a cmp l).
Proof.
  destruct (group_rows_spec cmp cmp_refl cmp_antisym cmp_eq_l l)
    as (Hd & Hg & Hr).
  pose proof (sort_labels_perm cmp (group_rows cmp l)) as Hp.
  assert (Hfst : map fst (group_totals a cmp l)
                 = map fst (sort_labels cmp (group_rows cmp l))).
  { unfold group_totals. rewrite map_map. reflexivity. }
  split; [split; [| split] |].
  - rewrite Hfst.
    apply (distinct_labels_perm cmp (map fst (group_rows cmp l)));
      [| exact Hd].
    symmetry. now apply fmap_Permutation.
  - intros t Ht. apply list_elem_of_fmap in Ht as (g & -> & Hin).
    rewrite Hp in Hin. destruct (Hg g Hin) as [H2 H1]. simpl.
    split; [exact H1 | now rewrite H2].
  - intros r Hin. destruct (Hr r Hin) as (g & Hgin & Hk).
    exists (g.1, machine_sum (group_add a) g.2). split; [| exact Hk].
    apply list_elem_of_fmap. exists g. split; [reflexivity |].
    now rewrite Hp.
  - apply strict_labels. rewrite Hfst. apply strict_labels.
    now apply sort_labels_strict.
Qed.
End SeriesFacts.

Lemma category_series_spec (a : arith) (cats : list cell)
  (sales : list (option Q)) :
  series_of_groups (machine_sum (group_add a)) cell_compare
    (category_rows cats sales) (category_series a cats sales)
  ∧ StronglySorted by_total_desc (category_series a cats sales).
Proof.
  split; [| apply sort_desc_sorted].
  eapply series_of_groups_perm; [symmetry; apply sort_desc_perm |].
  apply (group_totals_spec cell_compare cell_compare_refl
           cell_compare_antisym cell_compare_eq_l cell_compare_lt_trans).
Qed.

Lemma daily_series_spec (a : arith) (coerced : list (option Z))
  (sales : list (option Q)) :
  series_of_groups (machine_sum (group_add a)) Z.compare
    (dated_sales coerced sales) (daily_series a coerced sales)
  ∧ StronglySorted (label_lt Z.compare) (daily_series a coerced sales).
Proof.
  destruct (group_totals_spec Z.compare Z.compare_refl Z_compare_antisym
              Z_compare_eq_l Z_compare_lt_trans a
              (dated_sales coerced sales)) as [Hs _].
  split.
  - eapply series_of_groups_perm; [symmetry; apply sort_labels_perm |].
    exact Hs.
  - apply (sort_labels_strict Z.compare Z_compare_antisym Z_compare_eq_l
             Z_compare_lt_trans).
    now destruct Hs.
Qed.

(** A series is empty exactly when no row has a label. *)
Lemma series_of_groups_nil {K A} (f : list A -> Q)
  (cmp : K -> K -> comparison) (l : list (K * A)) (series : list (K * Q)) :
  series_of_groups f cmp l series -> series = [] <-> l = [].
Proof.
  intros (_ & Ht & Hr). split; intros ->.
  - destruct l as [| r l]; [reflexivity |].
    destruct (Hr r) as (t & Hin & _); [now left | inversion Hin].
  - destruct series as [| t s]; [reflexivity |].
    destruct (Ht t) as [Hin _]; [now left | inversion Hin].
Qed.

(** The guard of line 98 keeps the division away from a zero divisor. *)
Lemma top_share_ok (a : arith) (top_value total : Q) :
  top_share a top_value total
  = Ok (if Qltb 0 total then prod a (quot a top_value total) 100 else 0%Q).
Proof.
  unfold top_share, machine_div.
  destruct (Qltb 0 total) eqn:Hpos; [| reflexivity].
  apply Qltb_true in Hpos.
  destruct (Qeq_bool total 0) eqn:Hz; [| reflexivity].
  apply Qeq_bool_iff in Hz. rewrite Hz in Hpos.
  now apply Qlt_irrefl in Hpos.
Qed.

(** Tab 1 when the chart call returns: lines 94-113 on the series. *)
Lemma category_tab_drawn (a : arith) (bar : chart cell) (cats : list cell)
  (sales : list (option Q)) :
  bar (category_series a cats sales) = Ok tt ->
  category_tab a bar cats sales
  = Ok (match category_series a cats sales with
        | [] => NoData
        | first :: rest =>
            Shown {| category_sales := first :: rest;
                     top_category := (argmax_from Qltb first rest).1;
                     top_value := (argmax_from Qltb first rest).2;
                     total_sales := series_total a (first :: rest);
                     top_pct :=
                       if Qltb 0 (series_total a (first :: rest))
                       then prod a
                              (quot a (argmax_from Qltb first rest).2
                                 (series_total a (first :: rest))) 100
                       else 0%Q |}
        end).
Proof.
  intros Hbar. unfold category_tab. cbv zeta. rewrite Hbar, bind_Ok.
  destruct (category_series a cats sales) as [| first rest]; [reflexivity |].
  now rewrite top_share_ok, bind_Ok.
Qed.

Lemma category_tab_raise (a : arith) (bar : chart cell) (cats : list cell)
  (sales : list (option Q)) (e : exn) :
  bar (category_series a cats sales) = Raise e ->
  category_tab a bar cats sales = Raise e.
Proof. intros Hbar. unfold category_tab. cbv zeta. now rewrite Hbar. Qed.

(** ** Tab 1 *)






(** ** Tab 3: ties *)

(** C10. The counts of tab 3 are in strictly ascending order of the rating
    and the reported rating is the first entry with the highest count: it
    has a count that no other entry exceeds, and it equals or precedes
    every rating with that count.  So when several ratings share the
    highest count the smallest of them is reported; with the ratings 4, 2,
    4, 2, 3 (2 and 4 both occur twice) it is 2. *)
Theorem tied_mode_is_smallest_rating :
  (∀ df sc col,
     column df sc = Ok col ->
     one_kind (filter (fun c => Is_true (notna c)) col) ->
     ∃ v, ratings_view df (Some sc) = Ok v
       ∧ match v with
         | Shown s =>
             counts_of_values (filter (fun c => Is_true (notna c)) col)
               (rating_counts s)
             ∧ StronglySorted (label_lt cell_compare) (rating_counts s)
             ∧ ∃ n, (most_common_rating s, n) ∈ rating_counts s
                 ∧ (∀ y, y ∈ rating_counts s -> (y.2 <= n)%nat)
                 ∧ ∀ x, x ∈ rating_counts s -> x.2 = n ->
                     most_common_rating s = x.1
                     ∨ cell_compare (most_common_rating s) x.1 = Lt
         | NoData => filter (fun c => Is_true (notna c)) col = []
         | InsufficientColumns => False
         end)
  ∧ ratings_view tied_table
      (Resolver.detect_column (columns tied_table)
         Resolver.satisfaction_candidates)
    = Ok (Shown {| rating_counts := [(Num 2, 2); (Num 3, 1); (Num 4, 2)]%nat;
                   most_common_rating := Num 2 |}).
Proof.
  split; [| vm_compute; reflexivity].
  intros df sc col Hc Hkind.
  destruct (ratings_view_one_kind df sc col Hc Hkind)
    as (counts & Hcounts & Hsorted & ->).
  destruct counts as [| first rest]; eexists; (split; [reflexivity |]); simpl.
  - destruct Hcounts as (_ & _ & Hall).
    destruct (filter _ col) as [| c l]; [reflexivity |].
    destruct (Hall c) as (x & Hx & _); [now left | inversion Hx].
  - split; [exact Hcounts |]. split; [exact Hsorted |].
    destruct (argmax_count first rest) as (pre & post & Hl & Hpre & Hpost).
    set (top := argmax_from Nat.ltb first rest) in *.
    exists top.2. split; [| split].
    + rewrite Hl. apply elem_of_app. right. destruct top. now left.
    + intros y Hy. rewrite Hl in Hy. apply elem_of_app in Hy as [Hy | Hy].
      * apply Nat.lt_le_incl. exact (proj1 (Forall_forall _ _) Hpre y Hy).
      * apply elem_of_cons in Hy as [-> | Hy]; [reflexivity |].
        exact (proj1 (Forall_forall _ _) Hpost y Hy).
    + intros x Hx Hn. rewrite Hl in Hx, Hsorted.
      apply elem_of_app in Hx as [Hx | Hx].
      * pose proof (proj1 (Forall_forall _ _) Hpre x Hx) as Hlt.
        cbv beta in Hlt. lia.
      * apply elem_of_cons in Hx as [-> | Hx]; [now left |]. right.
        apply StronglySorted_app_1_r, StronglySorted_inv in Hsorted
          as [_ Hs].
        exact (proj1 (Forall_forall _ _) Hs x Hx).
Qed.

Lemma tied_mode_is_smallest_rating_witness :
  column tied_table "Satisfaction Rating"
  = Ok [Num 4; Num 2; NaN; Num 4; Num 2; Num 3]
  ∧ ∃ v, ratings_view tied_table (Some "Satisfaction Rating") = Ok v
      ∧ v ≠ InsufficientColumns.
Proof.
  split; [reflexivity |].
  destruct (proj1 tied_mode_is_smallest_rating tied_table
              "Satisfaction Rating"
              [Num 4; Num 2; NaN; Num 4; Num 2; Num 3])
    as (v & Hv & Hshape); [reflexivity | exact tied_one_kind |].
  exists v. split; [exact Hv |]. intros ->. exact Hshape.
Defined.

(** ** Tab 2 *)

Lemma time_tab_empty (a : arith) (to_datetime : list cell -> list (option Z))
  (line : chart Z) (dates : list cell) (sales : list (option Q)) :
  daily_series a (to_datetime dates) sales = [] ->
  time_tab a to_datetime line dates sales = Ok NoData.
Proof. intros He. unfold time_tab. now rewrite He. Qed.

Lemma time_tab_drawn (a : arith) (to_datetime : list cell -> list (option Z))
  (line : chart Z) (dates : list cell) (sales : list (option Q))
  (first : Z * Q) (rest : list (Z * Q)) :
  daily_series a (to_datetime dates) sales = first :: rest ->
  line (first :: rest) = Ok tt ->
  time_tab a to_datetime line dates sales
  = Ok (Shown {| daily_sales := first :: rest;
                 max_date := (argmax_from Qltb first rest).1;
                 max_value := (argmax_from Qltb first rest).2 |}).
Proof. intros He Hl. unfold time_tab. now rewrite He, Hl. Qed.

Lemma time_tab_raise (a : arith) (to_datetime : list cell -> list (option Z))
  (line : chart Z) (dates : list cell) (sales : list (option Q))
  (first : Z * Q) (rest : list (Z * Q)) (e : exn) :
  daily_series a (to_datetime dates) sales = first :: rest ->
  line (first :: rest) = Raise e ->
  time_tab a to_datetime line dates sales = Raise e.
Proof. intros He Hl. unfold time_tab. now rewrite He, Hl. Qed.

(** C5, on two sales of one day.  The rows of 2024-01-01 09:00 (10) and
    2024-01-01 17:00 (20) fall on the same day, yet the series of tab 2
    has an entry for each of them, 10 and 20, not one entry of 30 for the
    day, and the peak reported is 20: the rows are grouped by timestamp,
    not by calendar date. *)
Theorem same_day_sales_not_summed :
  day_of morning = day_of evening
  ∧ dated_sales [Some morning; Some evening] [Some 10%Q; Some 20%Q]
    = [(morning, Some 10%Q); (evening, Some 20%Q)]
  ∧ daily_series exact_arith [Some morning; Some evening]
      [Some 10%Q; Some 20%Q]
    = [(morning, 10%Q); (evening, 20%Q)]
  ∧ time_tab exact_arith (fun _ => [Some morning; Some evening]) drawn
      [Str "2024-01-01 09:00"; Str "2024-01-01 17:00"]
      [Some 10%Q; Some 20%Q]
    = Ok (Shown {| daily_sales := [(morning, 10%Q); (evening, 20%Q)];
                   max_date := evening;
                   max_value := 20%Q |})
  ∧ (sum_Q [10%Q; 20%Q] == 30)%Q.
Proof. repeat split; vm_compute; reflexivity. Qed.

(** C6, on the same two sales.  The series of tab 2 ascends strictly by
    timestamp, but the one calendar date occurs in it twice, and the
    total reported for the peak date, 20, is not the sum of that date's
    sales, 30. *)
Theorem same_day_twice_in_daily_series :
  StronglySorted (fun x y : Z * Q => (x.1 < y.1)%Z)
    (daily_series exact_arith [Some morning; Some evening]
       [Some 10%Q; Some 20%Q])
  ∧ map (fun x : Z * Q => day_of x.1)
      (daily_series exact_arith [Some morning; Some evening]
         [Some 10%Q; Some 20%Q])
    = [19723%Z; 19723%Z]
  ∧ ¬ NoDup (map (fun x : Z * Q => day_of x.1)
               (daily_series exact_arith [Some morning; Some evening]
                  [Some 10%Q; Some 20%Q]))
  ∧ argmax_from Qltb (morning, 10%Q) [(evening, 20%Q)] = (evening, 20%Q)
  ∧ (20 < sum_Q [10%Q; 20%Q])%Q.
Proof.
  split; [| split; [| split; [| split]]].
  - vm_compute daily_series. repeat constructor.
  - vm_compute. reflexivity.
  - vm_compute map. intros Hnd. apply NoDup_cons in Hnd as [Hnin _].
    apply Hnin. now left.
  - vm_compute. reflexivity.
  - vm_compute. reflexivity.
Qed.

(** ** Tab 1 and a sales column without a value *)

(** C9, as stated, fails.  A row with a category and a missing sales value
    is not left out of the grouping: on the table whose only row is
    (Juice, missing) tab 1 does not show the no-data notice but the total
    0 for Juice, with a share of 0. *)
Lemma all_missing_sales_are_shown :
  column unsold_table "Sales" = Ok [NaN]
  ∧ (∃ s, category_view unsold_table (Some "Category") (Some "Sales")
          = Ok (Shown s)
          ∧ category_sales s = [(Str "Juice", 0%Q)]
          ∧ top_category s = Str "Juice"
          ∧ top_pct s = 0%Q)
  ∧ (∃ s, category_tab exact_arith drawn [Str "Juice"] [None]
          = Ok (Shown s)
          ∧ category_sales s = [(Str "Juice", 0%Q)]
          ∧ top_category s = Str "Juice"
          ∧ top_pct s = 0%Q)
  ∧ ¬ (∀ df cc sc cats sales,
         column df cc = Ok cats -> column df sc = Ok sales ->
         Forall (fun c => c = NaN) sales ->
         category_view df (Some cc) (Some sc) = Ok NoData).
Proof.
  split; [reflexivity |]. split; [| split].
  - eexists. split; [vm_compute; reflexivity |]. repeat split.
  - eexists. split; [vm_compute; reflexivity |]. repeat split.
  - intros H.
    specialize (H unsold_table "Category" "Sales" [Str "Juice"] [NaN]
                  eq_refl eq_refl ltac:(repeat constructor)).
    vm_compute in H. discriminate H.
Qed.

(** ** Further properties of the tabs with their chart calls *)

(** X9. When the chart call of tab 1 returns on a non-empty series, the
    top category it reports is the first entry of that series (the first
    bar of the chart), with its total. *)
Theorem top_category_is_first_entry :
  ∀ (a : arith) (bar : chart cell) df cc sc cats cells sales first rest,
    column df cc = Ok cats -> column df sc = Ok cells ->
    numbers cells = Some sales ->
    category_series a cats sales = first :: rest ->
    bar (first :: rest) = Ok tt ->
    ∃ s, category_tab a bar cats sales = Ok (Shown s)
      ∧ category_sales s = first :: rest
      ∧ top_category s = first.1
      ∧ top_value s = first.2.
Proof.
  intros a bar df cc sc cats cells sales first rest _ _ _ Hseries Hbar.
  rewrite category_tab_drawn by (rewrite Hseries; exact Hbar).
  destruct (category_series_spec a cats sales) as [_ Hsorted].
  rewrite Hseries in Hsorted |- *.
  apply StronglySorted_inv in Hsorted as [_ Hfirst].
  eexists. split; [reflexivity |]. simpl. split; [reflexivity |].
  rewrite (argmax_from_head Qltb first rest); [now split |].
  eapply Forall_impl; [exact Hfirst |]. intros x Hx. now apply Qltb_false.
Qed.

Lemma top_category_is_first_entry_witness :
  column juice_table "Category" = Ok [Str "Juice"; Str "Smoothie"]
  ∧ column juice_table "Sales" = Ok [Num 100; Num 300]
  ∧ ∃ s, category_tab exact_arith drawn [Str "Juice"; Str "Smoothie"]
           [Some 100%Q; Some 300%Q] = Ok (Shown s)
      ∧ category_sales s = [(Str "Smoothie", 300%Q); (Str "Juice", 100%Q)]
      ∧ top_category s = Str "Smoothie"
      ∧ top_value s = 300%Q.
Proof.
  split; [reflexivity |]. split; [reflexivity |].
  apply (top_category_is_first_entry exact_arith drawn juice_table
           "Category" "Sales" [Str "Juice"; Str "Smoothie"]
           [Num 100; Num 300] [Some 100%Q; Some 300%Q]
           (Str "Smoothie", 300%Q) [(Str "Juice", 100%Q)]);
    [reflexivity | reflexivity | reflexivity | vm_compute; reflexivity
    | reflexivity].
Defined.

Lemma machine_sum_missing (add : list Q -> Q) (l : list (option Q)) :
  Forall (fun v => v = None) l -> machine_sum add l = 0%Q.
Proof.
  intros Hl. unfold machine_sum.
  replace (present l) with (@nil Q); [reflexivity |].
  symmetry. unfold present. induction Hl as [| v l -> _ IH]; [reflexivity |].
  exact IH.
Qed.

(** X17. When every sales cell is missing but some row carries a category,
    the series of tab 1 is not empty: when its chart call returns, tab 1
    does not show the no-data notice but every category with the total
    0. *)
Theorem all_sales_missing_shows_zeros :
  ∀ (a : arith) (bar : chart cell) df cc sc cats cells sales,
    column df cc = Ok cats -> column df sc = Ok cells ->
    numbers cells = Some sales ->
    Forall (fun v => v = None) sales ->
    category_rows cats sales ≠ [] ->
    bar (category_series a cats sales) = Ok tt ->
    ∃ s, category_tab a bar cats sales = Ok (Shown s)
      ∧ category_sales s = category_series a cats sales
      ∧ series_of_groups (machine_sum (group_add a)) cell_compare
          (category_rows cats sales) (category_sales s)
      ∧ ∀ t, t ∈ category_sales s -> t.2 = 0%Q.
Proof.
  intros a bar df cc sc cats cells sales _ _ _ Hnone Hrows Hbar.
  rewrite (category_tab_drawn a bar cats sales Hbar).
  destruct (category_series_spec a cats sales) as [Hs _].
  pose proof (series_of_groups_nil _ _ _ _ Hs) as Hnil.
  destruct (category_series a cats sales) as [| first rest] eqn:Hseries;
    [now destruct Hrows; apply Hnil |].
  eexists. split; [reflexivity |]. simpl.
  split; [reflexivity |]. split; [exact Hs |].
  intros t Ht. destruct Hs as (_ & Hsum & _).
  destruct (Hsum t Ht) as [_ ->]. apply machine_sum_missing.
  apply Forall_forall. intros v Hv.
  apply list_elem_of_fmap in Hv as ([k v'] & -> & Hr).
  apply list_elem_of_filter in Hr as [_ Hr].
  apply list_elem_of_filter in Hr as [_ Hr].
  apply elem_of_zip_r in Hr. exact (proj1 (Forall_forall _ _) Hnone v' Hr).
Qed.

Lemma all_sales_missing_shows_zeros_witness :
  column unsold_table "Category" = Ok [Str "Juice"]
  ∧ column unsold_table "Sales" = Ok [NaN]
  ∧ numbers [NaN] = Some [None]
  ∧ ∃ s, category_tab exact_arith drawn [Str "Juice"] [None] = Ok (Shown s)
      ∧ category_sales s = category_series exact_arith [Str "Juice"] [None]
      ∧ series_of_groups (machine_sum (group_add exact_arith)) cell_compare
          (category_rows [Str "Juice"] [None]) (category_sales s)
      ∧ ∀ t, t ∈ category_sales s -> t.2 = 0%Q.
Proof.
  split; [reflexivity |]. split; [reflexivity |]. split; [reflexivity |].
  apply (all_sales_missing_shows_zeros exact_arith drawn unsold_table
           "Category" "Sales" [Str "Juice"] [NaN] [None]);
    [reflexivity | reflexivity | reflexivity | repeat constructor
    | vm_compute; discriminate | reflexivity].
Defined.

Lemma dated_sales_elem (ds : list (option Z)) (vs : list (option Q)) (d : Z)
  (v : option Q) :
  (d, v) ∈ dated_sales ds vs
  <-> ∃ i, ds !! i = Some (Some d) ∧ vs !! i = Some v.
Proof.
  unfold dated_sales. rewrite list_elem_of_omap. split.
  - intros ([[d' |] v'] & Hin & Hf); simpl in Hf; [| discriminate].
    injection Hf as -> ->.
    apply elem_of_lookup_zip_with in Hin as (i & x & y & [= <- <-] & Hx & Hy).
    eauto.
  - intros (i & Hd & Hv). exists (Some d, v). split; [| reflexivity].
    apply elem_of_lookup_zip_with. exists i, (Some d), v. auto.
Qed.



(** X18. The values the three tabs single out are values of the table:
    the top category is the category of some row, the peak date is the
    coerced date of some row, and the most common rating is a rating of
    some row that is not missing. *)
Theorem reported_values_occur :
  (∀ (a : arith) (bar : chart cell) df cc sc cats cells sales first rest,
     column df cc = Ok cats -> column df sc = Ok cells ->
     numbers cells = Some sales ->
     category_series a cats sales = first :: rest ->
     bar (first :: rest) = Ok tt ->
     ∃ s, category_tab a bar cats sales = Ok (Shown s)
       ∧ top_category s ∈ cats ∧ Is_true (notna (top_category s)))
  ∧ (∀ (a : arith) (to_datetime : list cell -> list (option Z))
       (line : chart Z) df dc sc dates cells sales first rest,
       column df dc = Ok dates -> column df sc = Ok cells ->
       numbers cells = Some sales ->
       daily_series a (to_datetime dates) sales = first :: rest ->
       line (first :: rest) = Ok tt ->
       ∃ s, time_tab a to_datetime line dates sales = Ok (Shown s)
         ∧ Some (max_date s) ∈ to_datetime dates)
  ∧ (∀ df sc col c,
       column df sc = Ok col ->
       one_kind (filter (fun c => Is_true (notna c)) col) ->
       c ∈ col -> Is_true (notna c) ->
       ∃ s, ratings_view df (Some sc) = Ok (Shown s)
         ∧ most_common_rating s ∈ col
         ∧ Is_true (notna (most_common_rating s))).
Proof.
  split; [| split].
  - intros a bar df cc sc cats cells sales first rest _ _ _ Hseries Hbar.
    rewrite category_tab_drawn by (rewrite Hseries; exact Hbar).
    destruct (category_series_spec a cats sales) as [(_ & Ht & _) _].
    rewrite Hseries in Ht |- *.
    eexists. split; [reflexivity |]. simpl.
    destruct (argmax_total first rest) as [Hin _].
    destruct (Ht _ Hin) as [Hk _].
    apply list_elem_of_fmap in Hk as ([k v] & -> & Hr).
    apply list_elem_of_filter in Hr as [Hna Hr].
    apply elem_of_zip_l in Hr. now split.
  - intros a to_datetime line df dc sc dates cells sales first rest
      _ _ _ Hseries Hline.
    rewrite (time_tab_drawn a _ _ _ _ first rest Hseries Hline).
    destruct (daily_series_spec a (to_datetime dates) sales)
      as [(_ & Ht & _) _].
    rewrite Hseries in Ht.
    eexists. split; [reflexivity |]. simpl.
    destruct (argmax_total first rest) as [Hin _].
    destruct (Ht _ Hin) as [Hk _].
    apply list_elem_of_fmap in Hk as ([d v] & -> & Hr).
    apply dated_sales_elem in Hr as (i & Hi & _).
    exact (list_elem_of_lookup_2 _ _ _ Hi).
  - intros df sc col c Hc Hkind Hin Hna.
    destruct (ratings_view_one_kind df sc col Hc Hkind)
      as (counts & (_ & Hcnt & Hcov) & _ & ->).
    destruct counts as [| first rest].
    + destruct (Hcov c) as (x & Hx & _);
        [apply list_elem_of_filter; now split | inversion Hx].
    + eexists. split; [reflexivity |]. simpl.
      destruct (argmax_count first rest) as (pre & post & Hl & _).
      assert (Htop : argmax_from Nat.ltb first rest ∈ first :: rest).
      { rewrite Hl. apply elem_of_app. right. now left. }
      destruct (Hcnt _ Htop) as [Hr _].
      apply list_elem_of_filter in Hr as [Hna' Hr]. now split.
Qed.

Lemma reported_values_occur_witness :
  column rated_table "Service Satisfaction Rating"
  = Ok [Num 5; Num 5; Num 3; Num 4; Num 5]
  ∧ ∃ s, ratings_view rated_table (Some "Service Satisfaction Rating")
         = Ok (Shown s)
      ∧ most_common_rating s ∈ [Num 5; Num 5; Num 3; Num 4; Num 5]
      ∧ Is_true (notna (most_common_rating s)).
Proof.
  split; [reflexivity |].
  apply (proj2 (proj2 reported_values_occur) rated_table
           "Service Satisfaction Rating" _ (Num 5));
    [reflexivity | exact rated_one_kind | now left | exact I].
Defined.

(** X4. On a numeric sales column tabs 1 and 2 raise nothing of their own:
    when one of them ends in an exception, it is the exception its chart
    call raised on the series.  In particular the division of line 99 and
    the [idxmax()] calls never raise. *)
Theorem tabs_raise_only_from_chart :
  (∀ (a : arith) (bar : chart cell) cats sales e,
     category_tab a bar cats sales = Raise e ->
     bar (category_series a cats sales) = Raise e)
  ∧ (∀ (a : arith) (to_datetime : list cell -> list (option Z))
       (line : chart Z) dates sales e,
       time_tab a to_datetime line dates sales = Raise e ->
       daily_series a (to_datetime dates) sales ≠ []
       ∧ line (daily_series a (to_datetime dates) sales) = Raise e).
Proof.
  split.
  - intros a bar cats sales e Htab.
    destruct (bar (category_series a cats sales)) as [[] | e'] eqn:Hbar.
    + rewrite (category_tab_drawn a bar cats sales Hbar) in Htab.
      discriminate Htab.
    + rewrite (category_tab_raise a bar cats sales e' Hbar) in Htab.
      now injection Htab as ->.
  - intros a to_datetime line dates sales e Htab.
    destruct (daily_series a (to_datetime dates) sales) as [| first rest]
      eqn:Hseries.
    + rewrite (time_tab_empty a _ _ _ _ Hseries) in Htab. discriminate Htab.
    + split; [discriminate |].
      destruct (line (first :: rest)) as [[] | e'] eqn:Hline.
      * rewrite (time_tab_drawn a _ _ _ _ first rest Hseries Hline) in Htab.
        discriminate Htab.
      * rewrite (time_tab_raise a _ _ _ _ first rest e' Hseries Hline)
          in Htab.
        now injection Htab as ->.
Qed.

Lemma tabs_raise_only_from_chart_witness :
  category_tab exact_arith (fun _ => Raise TypeError)
    [Str "Juice"; Num 7] [Some 100%Q; Some 300%Q] = Raise TypeError
  ∧ (fun _ : list (cell * Q) => @Raise unit TypeError)
      (category_series exact_arith [Str "Juice"; Num 7]
         [Some 100%Q; Some 300%Q]) = Raise TypeError.
Proof.
  split; [reflexivity |].
  apply (proj1 tabs_raise_only_from_chart exact_arith
           (fun _ => Raise TypeError) [Str "Juice"; Num 7]
           [Some 100%Q; Some 300%Q] TypeError).
  reflexivity.
Defined.
